(** * warship_game.py: a shallow embedding and its verified properties

    The board of [warship_game.py] is a Python [list] of [list]s of [str];
    every function receives a reference to it and several of them mutate it
    in place.  The embedding keeps the data as the program has it (strings
    for cells, integers for indices, Python's subscript rules written out)
    and threads the board through a small state-and-exception monad whose
    state also records every subscript access, so that "nothing was
    written" and "nothing outside the grid was read" are statements about
    the recorded trace. *)

From Stdlib Require Import ZArith String List Bool Lia.
From Stdlib Require Finite.
From stdpp Require Import base option list strings gmap.
Import ListNotations.

Local Open Scope string_scope.
Local Open Scope list_scope.
Local Open Scope Z_scope.

(** ** Python values and primitives *)

Module Py.

(** The exceptions the modelled code can raise. *)
Inductive exn : Type :=
| IndexError
| KeyError
| ValueError
| EOFError.

Inductive result (A : Type) : Type :=
| Ok (a : A)
| Raise (e : exn).
Arguments Ok {A} a.
Arguments Raise {A} e.

(** [l[i]] on a list of length [n]: indices [0..n-1] address from the
    front, indices [-n..-1] from the back, anything else raises
    [IndexError] (here: [None]). *)
Definition index (n : nat) (i : Z) : option nat :=
  if (0 <=? i) && (i <? Z.of_nat n) then Some (Z.to_nat i)
  else if (- Z.of_nat n <=? i) && (i <? 0) then Some (Z.to_nat (i + Z.of_nat n))
  else None.

Definition getitem {A} (l : list A) (i : Z) : option A :=
  k ← index (length l) i; l !! k.

(** [range(a, b)] and [range(n)]. *)
Definition range2 (a b : Z) : list Z :=
  map (fun k => a + Z.of_nat k) (seq 0 (Z.to_nat (b - a))).
Definition range (n : Z) : list Z := range2 0 n.

(** [enumerate(l)]. *)
Fixpoint enumerate_from {A} (k : Z) (l : list A) : list (Z * A) :=
  match l with
  | [] => []
  | x :: l' => (k, x) :: enumerate_from (k + 1) l'
  end.
Definition enumerate {A} (l : list A) : list (Z * A) := enumerate_from 0 l.

(** [itertools.product(xs, ys)]: the last component varies fastest. *)
Definition product {A B} (xs : list A) (ys : list B) : list (A * B) :=
  flat_map (fun x => map (pair x) ys) xs.

(** [x in l] for a list of strings. *)
Definition str_in (x : string) (l : list string) : bool :=
  existsb (String.eqb x) l.

(** [str(d)] for [d] in [range(10)], and [int(s)] on those strings, the
    only ones the game ever converts. *)
Definition str_digit (d : Z) : string :=
  String (Ascii.ascii_of_nat (48 + Z.to_nat d)) EmptyString.

Definition int_digit (s : string) : option Z :=
  match s with
  | String c EmptyString =>
      let n := Ascii.nat_of_ascii c in
      if (48 <=? n)%nat && (n <=? 57)%nat then Some (Z.of_nat (n - 48)) else None
  | _ => None
  end.

End Py.

Import Py.

(** ** The board as a mutable object *)

(** A board is a list of rows; a row is a list of one-character markers. *)
Abbreviation Board := (list (list string)).

(** Value of [board[i][j]], [None] when either subscript raises. *)
Definition board_get (b : Board) (i j : Z) : option string :=
  row ← getitem b i; getitem row j.

(** Value of the board after [board[i][j] = v], [None] when either
    subscript raises.  The rows of a board are distinct list objects (see
    [generate_board]), so the store to one row leaves the others alone. *)
Definition board_set (b : Board) (i j : Z) (v : string) : option Board :=
  ri ← index (length b) i;
  row ← b !! ri;
  ci ← index (length row) j;
  Some (<[ri := <[ci := v]> row]> b).

(** What an execution does to the board and says to the player. *)
Inductive event : Type :=
| Rd (i j : Z)                (* [board[i][j]] was evaluated, or raised *)
| Wr (i j : Z) (v : string)   (* [board[i][j] = v] was executed, or raised *)
| Msg (text : string).        (* [io_print_sleep(text, _)] *)

Record Store : Type := mkStore {
  cells : Board;       (* current content of the board object *)
  trace : list event   (* accesses so far, oldest first *)
}.

Definition M (A : Type) : Type := Store -> result A * Store.

Definition ret {A} (a : A) : M A := fun s => (Ok a, s).
Definition raise {A} (e : exn) : M A := fun s => (Raise e, s).
Definition bind {A B} (m : M A) (k : A -> M B) : M B :=
  fun s => match m s with
           | (Ok a, s') => k a s'
           | (Raise e, s') => (Raise e, s')
           end.

Notation "x <~ m ; k" := (bind m (fun x => k))
  (at level 20, m at level 100, k at level 200, format "x  <~  m ; '/' k").
Notation "m ;;; k" := (bind m (fun _ => k))
  (at level 100, k at level 200, right associativity).

Definition emit (e : event) : M unit :=
  fun s => (Ok tt, mkStore (cells s) (trace s ++ [e])).

(** [board[i][j]] as an expression. *)
Definition load (i j : Z) : M string :=
  fun s => let s' := mkStore (cells s) (trace s ++ [Rd i j]) in
           match board_get (cells s) i j with
           | Some v => (Ok v, s')
           | None => (Raise IndexError, s')
           end.

(** [board[i][j] = v] as a statement. *)
Definition store (i j : Z) (v : string) : M unit :=
  fun s => match board_set (cells s) i j v with
           | Some b' => (Ok tt, mkStore b' (trace s ++ [Wr i j v]))
           | None => (Raise IndexError, mkStore (cells s) (trace s ++ [Wr i j v]))
           end.

(** The content of the board object, for [return board] and for
    [board.copy()].  The copy is a new outer list over the same rows; the
    embedding works with contents, and [place_ship] writes nothing between
    taking the copy and returning it. *)
Definition snapshot : M Board := fun s => (Ok (cells s), s).

(** [for x in xs: body(x)] where [body] may leave the function with
    [return v] (it then yields [Some v]). *)
Fixpoint for_each {A R} (xs : list A) (body : A -> M (option R)) : M (option R) :=
  match xs with
  | [] => ret None
  | x :: xs' =>
      r <~ body x;
      match r with
      | Some v => ret (Some v)
      | None => for_each xs' body
      end
  end.

(** [any(map(f, xs))] with a lazy [map]: stops at the first [True]. *)
Fixpoint any_map {A} (f : A -> M bool) (xs : list A) : M bool :=
  match xs with
  | [] => ret false
  | x :: xs' => b <~ f x; if b then ret true else any_map f xs'
  end.

(** ** The program *)

Definition TURNS : Z := 35.

Definition SHIPS_LEN : gmap string Z :=
  {[ "A" := 5; "B" := 4; "S" := 3; "D" := 3; "P" := 2 ]}.

(** [SHIPS_LEN[ship]]. *)
Definition ships_len (ship : string) : M Z :=
  match SHIPS_LEN !! ship with
  | Some n => ret n
  | None => raise KeyError
  end.

Definition generate_board (dim : Z) (filler : string) : Board :=
  map (fun _ => repeat filler (Z.to_nat dim)) (range dim).

Definition validate_bounds (row col ship_len : Z) (orientation filler : string)
  : M bool :=
  if String.eqb orientation "v" && (row + ship_len <? 10) then
    r <~ for_each (range ship_len) (fun i =>
           c <~ load (row + i) col;
           if negb (String.eqb c filler) then ret (Some false) else ret None);
    match r with Some b => ret b | None => ret true end
  else if String.eqb orientation "h" && (col + ship_len <? 10) then
    r <~ for_each (range ship_len) (fun i =>
           c <~ load row (col + i);
           if negb (String.eqb c filler) then ret (Some false) else ret None);
    match r with Some b => ret b | None => ret true end
  else if negb (str_in orientation ["h"; "v"]) then ret false
  else if (row + ship_len >=? 10) || (col + ship_len >=? 10) then ret false
  else ret true.

(** [place_ship] has a [filler] parameter but calls [validate_bounds]
    without it, so the check always compares with ["~"]. *)
Definition place_ship (row col : Z) (ship orientation filler : string)
  : M (bool * Board) :=
  ship_len <~ ships_len ship;
  valid <~ validate_bounds row col ship_len orientation "~";
  copy <~ snapshot;
  let fallback := (false, copy) in
  if negb valid then ret fallback
  else if String.eqb orientation "v" then
    for_each (R := Empty_set) (range ship_len) (fun i =>
      store (row + i) col ship ;;; ret None) ;;;
    b <~ snapshot; ret (true, b)
  else if String.eqb orientation "h" then
    for_each (R := Empty_set) (range ship_len) (fun i =>
      store row (col + i) ship ;;; ret None) ;;;
    b <~ snapshot; ret (true, b)
  else raise ValueError.

(** [populate_board] draws [randint] until the ship fits.  The random source
    is made explicit as the list of draws [(row, col, orientation)] it will
    deliver; [None] says that the list ended while the loop was still
    drawing.  After a rejected draw the source goes on with the
    [board.copy()] that [place_ship] returned, a new outer list over the
    same rows: every later store reaches the rows of the board it was
    given, and what it returns in the end has the content of that board
    without being the same list object. *)
Fixpoint place_until (ship : string) (draws : list (Z * Z * Z))
  : M (option (list (Z * Z * Z))) :=
  match draws with
  | [] => ret None
  | (row, col, orientation) :: draws' =>
      o <~ (if orientation =? 1 then ret "v"
            else if orientation =? 0 then ret "h"
            else raise KeyError);   (* [{1: "v", 0: "h"}[orientation]] *)
      res <~ place_ship row col ship o "~";
      let '(placed, _) := res in
      if placed then ret (Some draws') else place_until ship draws'
  end.

Fixpoint populate_board (ships : list string) (draws : list (Z * Z * Z))
  : M (option Board) :=
  match ships with
  | [] => b <~ snapshot; ret (Some b)
  | ship :: ships' =>
      rest <~ place_until ship draws;
      match rest with
      | Some draws' => populate_board ships' draws'
      | None => ret None
      end
  end.

(** A persisted record [(marker, row, col)]. *)
Abbreviation Record3 := (string * Z * Z)%type.

(** [get_state] compares with the literal ["~"], not with [filler]. *)
Definition get_state (board : Board) (filler : string) : list Record3 :=
  flat_map (fun '(ri, row) =>
    flat_map (fun '(ci, col) =>
      if negb (String.eqb col "~") then [(col, ri, ci)] else [])
      (enumerate row))
    (enumerate board).

Definition set_state (state : list Record3) : M Board :=
  for_each (R := Empty_set) state (fun '(ship, ri, ci) =>
    store ri ci ship ;;; ret None) ;;;
  snapshot.

Definition digits : list string := map str_digit (range 10).

Definition io_validate_input (val : string) (valid : list string) : bool * string :=
  if str_in val valid then (true, val) else (false, val).

(** The save file is kept as the list of records that [io_save_board]
    prints, one per line, and that [io_load_board] reads back with [eval]. *)
Definition io_save_board (board : Board) : list Record3 := get_state board "~".

Definition io_load_board (file : list Record3) (custom_filler : string)
  : result Board * Store :=
  set_state file (mkStore (generate_board 10 custom_filler) []).

Definition get_turn (board : Board) (only : list string) : Z :=
  let unfolded := concat board in
  foldr Z.add 0
    (map Z.b2z (List.filter (fun i => i) (map (fun e => str_in e only) unfolded)))
  + 1.

Definition mask_board (board : Board) (extra : list string) (filler : string) : Board :=
  map (map (fun component =>
              if str_in component ([filler] ++ extra) then component else filler))
      board.

Definition radar_scan (r c : Z) (ignore : list string) : M bool :=
  let valid := fun t : Z * Z =>
    (r + t.1 <? 10) && (c + t.1 >? -1) && (r + t.2 <? 10) && (c + t.2 >? -1) in
  let entries := List.filter valid (product (range2 (-1) 2) (range2 (-1) 2)) in
  let check := fun t : Z * Z =>
    v <~ load (r + t.1) (c + t.2); ret (negb (str_in v ignore)) in
  any_map check entries.

Definition win_condition (board : Board) (ignore : list string) : bool :=
  let unfolded := concat board in
  forallb (fun entry => str_in entry ignore) unfolded.

(** How a call of [game_loop] hands control back to the menus.  The Python
    function never returns: each of these is a call into [io_win_screen] or
    [io_main_menu], which starts the next session. *)
Inductive ending : Type :=
| WinScreen                        (* [io_clear_save(); io_win_screen()] *)
| OutOfAmmo                        (* [io_clear_save(); io_main_menu("You ran out of ammo, ...")] *)
| SavedToMenu (file : list Record3). (* [io_save_board(board); io_main_menu("Game saved")] *)

(** [if radar and radar_scan(board, r, c): io_print_sleep("Enemy nearby!", 2)] *)
Definition radar_hint (radar : bool) (r c : Z) : M unit :=
  if radar then
    near <~ radar_scan r c ["@"; "X"; "~"];
    if near then emit (Msg "Enemy nearby!") else ret tt
  else ret tt.

(** [game_loop] reads its two answers from [inputs], the lines the player
    will type; [EOFError] is what [input()] raises when they are used up.
    Every recursive call of the source passes [board, cheats, radar] only,
    so [filler] and [turns] fall back to their defaults there.

    Two things the source does are not part of this definition.  Each turn
    of the source is one more nested call, so Python ends a session of
    about a thousand turns with [RecursionError]; the recursion here is on
    the list of answers and has no such bound.  And rendering is left out;
    [io_render_board] raises [TypeError] on a board with an empty row.  The
    definition is the source on runs below that depth on boards whose rows
    are not empty; what is proved of all runs is either about such runs or
    a property that also holds of a run cut short. *)
Fixpoint game_loop (inputs : list string) (cheats radar : bool)
    (filler : string) (turns : Z) : M ending :=
  board <~ snapshot;
  if win_condition board ["X"; "@"; "~"] then ret WinScreen else
  let turn := get_turn board ["@"; "X"] in
  if turn =? turns then ret OutOfAmmo else
  match inputs with
  | [] => raise EOFError
  | line_r :: inputs_r =>
      let '(_validr, _r) := io_validate_input line_r digits in
      if String.eqb _r "m" then ret (SavedToMenu (io_save_board board)) else
      match inputs_r with
      | [] => raise EOFError
      | line_c :: inputs_c =>
          let '(_validc, _c) := io_validate_input line_c digits in
          if String.eqb _c "m" then ret (SavedToMenu (io_save_board board)) else
          if _validr && _validc then
            match int_digit _r, int_digit _c with
            | Some r, Some c =>
                hit_miss <~ load r c;
                if String.eqb hit_miss "@" || String.eqb hit_miss "X" then
                  emit (Msg "You have already targeted this area") ;;;
                  game_loop inputs_c cheats radar "~" 20
                else if negb (String.eqb hit_miss filler)
                        && negb (String.eqb hit_miss "@") then
                  store r c "X" ;;;
                  radar_hint radar r c ;;;
                  game_loop inputs_c cheats radar "~" 20
                else if String.eqb hit_miss filler then
                  store r c "@" ;;;
                  radar_hint radar r c ;;;
                  game_loop inputs_c cheats radar "~" 20
                else
                  game_loop inputs_c cheats radar "~" 20
            | _, _ => raise ValueError
            end
          else
            emit (Msg "Sorry, incorrect input") ;;;
            game_loop inputs_c cheats radar "~" 20
      end
  end.

(** ** Vocabulary of the statements *)

(** A store that holds board [b] and has seen no access yet. *)
Definition fresh (b : Board) : Store := mkStore b [].

(** The cell in row [i], column [j], counted from the top left corner. *)
Definition cell (b : Board) (i j : nat) : option string :=
  row ← b !! i; row !! j.

(** A 10 x 10 grid. *)
Definition grid10 (b : Board) : Prop :=
  length b = 10%nat /\ Forall (fun row => length row = 10%nat) b.

(** The board in which the cells selected by [P] hold [v] and all others
    are those of [b]. *)
Definition paint (P : nat -> nat -> bool) (v : string) (b : Board) : Board :=
  imap (fun i => imap (fun j c => if P i j then v else c)) b.

(** The cells of the run of [len] cells that starts at [(row, col)]. *)
Definition run_cells (row col len : Z) (orientation : string) : list (nat * nat) :=
  map (fun k => if String.eqb orientation "v"
                then (Z.to_nat (row + k), Z.to_nat col)
                else (Z.to_nat row, Z.to_nat (col + k)))
      (range len).

Definition in_run (row col len : Z) (orientation : string) (i j : nat) : bool :=
  bool_decide ((i, j) ∈ run_cells row col len orientation).

Definition is_write (e : event) : bool :=
  match e with Wr _ _ _ => true | _ => false end.

(** [m] leaves the board as it is: whatever it does, no cell is written. *)
Definition quiet {A} (m : M A) : Prop :=
  forall s r s', m s = (r, s') ->
    cells s' = cells s /\
    exists evs, trace s' = trace s ++ evs /\ Forall (fun e => is_write e = false) evs.


(** A cell that holds a ship: neither hit, nor missed, nor water. *)
Definition occupied (c : string) : bool := negb (str_in c ["@"; "X"; "~"]).

(** The marker of a persisted record. *)
Definition marker (r : Record3) : string := r.1.1.

(** Both subscripts of a record are accepted by a list of length 10. *)
Definition subscripts_ok (r : Record3) : bool :=
  (-10 <=? r.1.2) && (r.1.2 <? 10) && (-10 <=? r.2) && (r.2 <? 10).

(** One record written onto a 10 x 10 board, as Python's subscripts place
    it: [-10..-1] address the same cells as [0..9]. *)
Definition put (b : Board) (r : Record3) : Board :=
  alter (fun row => <[Z.to_nat (r.2 mod 10) := marker r]> row)
        (Z.to_nat (r.1.2 mod 10)) b.

(** ** Boards of the scenarios *)

Definition empty_board : Board := generate_board 10 "~".

(** A fleet as [populate_board] lays it out when [randint] delivers
    [fleet_draws]; two of the draws are rejected on the way. *)
Definition fleet_draws : list (Z * Z * Z) :=
  [(0, 0, 1); (0, 0, 0); (0, 1, 1); (5, 5, 0); (0, 9, 1); (9, 9, 0); (9, 0, 0)].

Definition fleet_board : Board :=
  [["A"; "B"; "~"; "~"; "~"; "~"; "~"; "~"; "~"; "D"];
   ["A"; "B"; "~"; "~"; "~"; "~"; "~"; "~"; "~"; "D"];
   ["A"; "B"; "~"; "~"; "~"; "~"; "~"; "~"; "~"; "D"];
   ["A"; "B"; "~"; "~"; "~"; "~"; "~"; "~"; "~"; "~"];
   ["A"; "~"; "~"; "~"; "~"; "~"; "~"; "~"; "~"; "~"];
   ["~"; "~"; "~"; "~"; "~"; "S"; "S"; "S"; "~"; "~"];
   ["~"; "~"; "~"; "~"; "~"; "~"; "~"; "~"; "~"; "~"];
   ["~"; "~"; "~"; "~"; "~"; "~"; "~"; "~"; "~"; "~"];
   ["~"; "~"; "~"; "~"; "~"; "~"; "~"; "~"; "~"; "~"];
   ["P"; "P"; "~"; "~"; "~"; "~"; "~"; "~"; "~"; "~"]].

(** [fleet_board] after a miss at (6,0). *)
Definition missed_board : Board :=
  paint (fun i j => (i =? 6)%nat && (j =? 0)%nat) "@" fleet_board.

(** The answers of a player who fires at [(r, c)] for each pair in turn. *)
Definition shots (targets : list (Z * Z)) : list string :=
  flat_map (fun t => [str_digit t.1; str_digit t.2]) targets.

(** Nineteen distinct water cells of [fleet_board], and a twentieth. *)
Definition water19 : list (Z * Z) :=
  map (fun c => (6, c)) (range 10) ++ map (fun c => (7, c)) (range 9).
Definition water20th : Z * Z := (7, 9).

(** ** Vocabulary of the further properties *)

(** Number of cells of the board that satisfy [P]. *)
Definition count_cells (P : string -> bool) (b : Board) : nat :=
  length (List.filter P (concat b)).

(** What the player is shown for a cell: ships look like water. *)
Definition masked (c : string) : string := if occupied c then "~" else c.

(** A water cell as a board generated with [filler] holds it. *)
Definition refill (filler c : string) : string :=
  if String.eqb c "~" then filler else c.

(** Every cell of [b] that holds something else than [w] holds the same in
    [b']. *)
Definition keeps_but (w : string) (b b' : Board) : Prop :=
  forall i j c, cell b i j = Some c -> c <> w -> cell b' i j = Some c.

(** The lengths of the rows of a board. *)
Definition shape (b : Board) : list nat := map length b.

(** A draw as [populate_board] makes it: [randint(0, 9)] twice and
    [randint(0, 1)]. *)
Definition randint_draw (d : Z * Z * Z) : Prop :=
  0 <= d.1.1 <= 9 /\ 0 <= d.1.2 <= 9 /\ (d.2 = 0 \/ d.2 = 1).

(** One pass through the body of [game_loop] once two answers, neither of
    them ["m"], have been read: what it does to the store, and whether it
    reaches the recursive call ([Ok tt]) or dies on an exception. *)
Inductive turn (radar : bool) (filler line_r line_c : string) (s : Store)
  : result unit -> Store -> Prop :=
| turn_invalid :
    str_in line_r digits && str_in line_c digits = false ->
    turn radar filler line_r line_c s (Ok tt)
      (mkStore (cells s) (trace s ++ [Msg "Sorry, incorrect input"]))
| turn_off_board r c :
    0 <= r < 10 -> 0 <= c < 10 ->
    line_r = str_digit r -> line_c = str_digit c ->
    board_get (cells s) r c = None ->
    turn radar filler line_r line_c s (Raise IndexError)
      (mkStore (cells s) (trace s ++ [Rd r c]))
| turn_repeat r c v :
    0 <= r < 10 -> 0 <= c < 10 ->
    line_r = str_digit r -> line_c = str_digit c ->
    board_get (cells s) r c = Some v -> v = "@" \/ v = "X" ->
    turn radar filler line_r line_c s (Ok tt)
      (mkStore (cells s)
         (trace s ++ [Rd r c; Msg "You have already targeted this area"]))
| turn_shot r c v b' res s1 :
    0 <= r < 10 -> 0 <= c < 10 ->
    line_r = str_digit r -> line_c = str_digit c ->
    board_get (cells s) r c = Some v -> v <> "@" -> v <> "X" ->
    board_set (cells s) r c (if String.eqb v filler then "@" else "X") = Some b' ->
    radar_hint radar r c
      (mkStore b' (trace s ++ [Rd r c;
                               Wr r c (if String.eqb v filler then "@" else "X")]))
    = (res, s1) ->
    turn radar filler line_r line_c s res s1.

(** [b'] is [b] with some cells turned into hits or misses: the rows keep
    their lengths, a cell that is neither ["@"] nor ["X"] in [b'] is the
    cell of [b], and the turn number has not gone down. *)
Definition only_shots (b b' : Board) : Prop :=
  shape b' = shape b /\
  (forall i j v, cell b' i j = Some v -> v <> "@" -> v <> "X" ->
                 cell b i j = Some v) /\
  get_turn b ["@"; "X"] <= get_turn b' ["@"; "X"].

(** [fleet_board] with rows 6 and 7 missed all over: twenty shots, as a
    save file edited by hand can hold them. *)
Definition spent_board : Board :=
  paint (fun i j => (i =? 6)%nat || (i =? 7)%nat) "@" fleet_board.

(** The empty board with one patrol boat in its corner. *)
Definition patrol_board : Board := paint (in_run 0 0 2 "h") "P" empty_board.

(** ** The scenario boards *)

Lemma populate_fleet :
  populate_board ["A"; "B"; "S"; "D"; "P"] fleet_draws (fresh empty_board)
  = (Ok (Some fleet_board),
     mkStore fleet_board
       [Rd 0 0; Rd 1 0; Rd 2 0; Rd 3 0; Rd 4 0;
        Wr 0 0 "A"; Wr 1 0 "A"; Wr 2 0 "A"; Wr 3 0 "A"; Wr 4 0 "A";
        Rd 0 0;
        Rd 0 1; Rd 1 1; Rd 2 1; Rd 3 1;
        Wr 0 1 "B"; Wr 1 1 "B"; Wr 2 1 "B"; Wr 3 1 "B";
        Rd 5 5; Rd 5 6; Rd 5 7; Wr 5 5 "S"; Wr 5 6 "S"; Wr 5 7 "S";
        Rd 0 9; Rd 1 9; Rd 2 9; Wr 0 9 "D"; Wr 1 9 "D"; Wr 2 9 "D";
        Rd 9 0; Rd 9 1; Wr 9 0 "P"; Wr 9 1 "P"]).
Proof. vm_compute. reflexivity. Qed.

Lemma miss_on_fleet :
  game_loop (shots [(6, 0)]) false false "~" 20 (fresh fleet_board)
  = (Raise EOFError, mkStore missed_board [Rd 6 0; Wr 6 0 "@"]).
Proof. vm_compute. reflexivity. Qed.

(** ** Subscripts *)

Lemma index_lt n i k : index n i = Some k -> (k < n)%nat.
Proof.
  unfold index. intros H.
  destruct ((0 <=? i) && (i <? Z.of_nat n)) eqn:E1.
  - injection H as <-. lia.
  - destruct ((- Z.of_nat n <=? i) && (i <? 0)) eqn:E2; [|discriminate].
    injection H as <-. lia.
Qed.

Lemma index_nonneg n i :
  0 <= i -> index n i = if i <? Z.of_nat n then Some (Z.to_nat i) else None.
Proof.
  intros Hi. unfold index.
  destruct (i <? Z.of_nat n) eqn:E.
  - replace (0 <=? i) with true by lia. reflexivity.
  - replace (0 <=? i) with true by lia. simpl.
    replace (i <? 0) with false by lia. now rewrite andb_false_r.
Qed.

Lemma index_mod10 i :
  index 10 i = if (-10 <=? i) && (i <? 10) then Some (Z.to_nat (i mod 10)) else None.
Proof.
  unfold index. change (- Z.of_nat 10) with (-10). change (Z.of_nat 10) with 10.
  destruct (0 <=? i) eqn:E0; destruct (i <? 10) eqn:E1; simpl.
  - replace (-10 <=? i) with true by lia. simpl.
    now rewrite Z.mod_small by lia.
  - replace (i <? 0) with false by lia. now rewrite !andb_false_r.
  - replace (i <? 0) with true by lia. rewrite !andb_true_r.
    destruct (-10 <=? i) eqn:E2; [|reflexivity].
    f_equal. f_equal.
    rewrite <- (Z.mod_small (i + 10) 10) by lia.
    rewrite <- (Z_mod_plus_full i 1 10). now rewrite Z.mul_1_l.
  - lia.
Qed.

Lemma getitem_nonneg {A} (l : list A) i : 0 <= i -> getitem l i = l !! Z.to_nat i.
Proof.
  intros Hi. unfold getitem. rewrite index_nonneg by assumption.
  destruct (i <? Z.of_nat (length l)) eqn:E; simpl; [reflexivity|].
  symmetry. apply lookup_ge_None. lia.
Qed.

Lemma board_get_cell b i j :
  0 <= i -> 0 <= j -> board_get b i j = cell b (Z.to_nat i) (Z.to_nat j).
Proof.
  intros Hi Hj. unfold board_get, cell. rewrite getitem_nonneg by assumption.
  destruct (b !! Z.to_nat i) as [row|]; simpl; [|reflexivity].
  now apply getitem_nonneg.
Qed.

(** The subscripts that read a cell are those that write it. *)
Lemma board_set_inv b i j v b' :
  board_set b i j v = Some b' ->
  exists ri ci row,
    index (length b) i = Some ri /\ b !! ri = Some row /\
    index (length row) j = Some ci /\ (ci < length row)%nat /\
    b' = <[ri := <[ci := v]> row]> b.
Proof.
  unfold board_set. intros H.
  destruct (index (length b) i) as [ri|] eqn:Ei; [|discriminate]. simpl in H.
  destruct (b !! ri) as [row|] eqn:Er; [|discriminate]. simpl in H.
  destruct (index (length row) j) as [ci|] eqn:Ec; [|discriminate]. simpl in H.
  injection H as <-. exists ri, ci, row. repeat split; try assumption.
  now apply index_lt in Ec.
Qed.

Lemma board_get_inv b i j old :
  board_get b i j = Some old ->
  exists ri ci row,
    index (length b) i = Some ri /\ b !! ri = Some row /\
    index (length row) j = Some ci /\ row !! ci = Some old.
Proof.
  unfold board_get, getitem. intros H.
  destruct (index (length b) i) as [ri|] eqn:Ei; [|discriminate]. simpl in H.
  destruct (b !! ri) as [row|] eqn:Er; [|discriminate]. simpl in H.
  destruct (index (length row) j) as [ci|] eqn:Ec; [|discriminate]. simpl in H.
  exists ri, ci, row. auto.
Qed.

Lemma board_set_defined b i j old v :
  board_get b i j = Some old -> exists b', board_set b i j v = Some b'.
Proof.
  intros H. apply board_get_inv in H as (ri & ci & row & Ei & Er & Ec & _).
  unfold board_set. rewrite Ei. simpl. rewrite Er. simpl. rewrite Ec. simpl. eauto.
Qed.

Lemma cell_insert b ri ci row v i j :
  b !! ri = Some row -> (ci < length row)%nat ->
  cell (<[ri := <[ci := v]> row]> b) i j
  = if decide (i = ri /\ j = ci) then Some v else cell b i j.
Proof.
  intros Hr Hc. unfold cell.
  destruct (decide (i = ri)) as [->|Hi].
  - rewrite list_lookup_insert_eq by (eapply lookup_lt_Some; eassumption).
    rewrite Hr. simpl.
    destruct (decide (j = ci)) as [->|Hj].
    + rewrite list_lookup_insert_eq by assumption.
      rewrite decide_True by auto. reflexivity.
    + rewrite list_lookup_insert_ne by auto.
      rewrite decide_False by tauto. reflexivity.
  - rewrite list_lookup_insert_ne by auto.
    rewrite decide_False by tauto. reflexivity.
Qed.

(** A store changes the cell it addresses and nothing else. *)
Lemma board_set_cell b i j old v b' :
  board_get b i j = Some old -> board_set b i j v = Some b' ->
  exists ri ci,
    cell b ri ci = Some old /\
    forall i' j', cell b' i' j'
                  = if decide (i' = ri /\ j' = ci) then Some v else cell b i' j'.
Proof.
  intros Hg Hs.
  apply board_get_inv in Hg as (ri & ci & row & Ei & Er & Ec & Hold).
  apply board_set_inv in Hs as (ri' & ci' & row' & Ei' & Er' & Ec' & Hlt & ->).
  assert (ri' = ri) as -> by congruence.
  assert (row' = row) as -> by congruence.
  assert (ci' = ci) as -> by congruence.
  exists ri, ci. split.
  - unfold cell. rewrite Er. simpl. exact Hold.
  - intros i' j'. now apply cell_insert.
Qed.

(** ** Computations that do not write *)

Lemma bind_inv {A B} (m : M A) (k : A -> M B) s r s' :
  bind m k s = (r, s') ->
  (exists a s1, m s = (Ok a, s1) /\ k a s1 = (r, s')) \/
  (exists e, m s = (Raise e, s') /\ r = Raise e).
Proof.
  unfold bind. destruct (m s) as [[a|e] s1]; intros H.
  - left. eauto.
  - right. injection H as <- <-. eauto.
Qed.

Lemma quiet_ret {A} (a : A) : quiet (ret a).
Proof.
  intros s r s' H. injection H as <- <-. split; [reflexivity|].
  exists []. now rewrite app_nil_r.
Qed.

Lemma quiet_raise {A} e : quiet (@raise A e).
Proof.
  intros s r s' H. injection H as <- <-. split; [reflexivity|].
  exists []. now rewrite app_nil_r.
Qed.

Lemma quiet_snapshot : quiet snapshot.
Proof.
  intros s r s' H. injection H as <- <-. split; [reflexivity|].
  exists []. now rewrite app_nil_r.
Qed.

Lemma quiet_load i j : quiet (load i j).
Proof.
  intros s r s' H. unfold load in H.
  destruct (board_get (cells s) i j); injection H as <- <-;
    (split; [reflexivity|]); exists [Rd i j]; (split; [reflexivity|]);
    repeat constructor.
Qed.

Lemma quiet_emit e : is_write e = false -> quiet (emit e).
Proof.
  intros He s r s' H. injection H as <- <-. split; [reflexivity|].
  exists [e]. split; [reflexivity|]. now repeat constructor.
Qed.

Lemma quiet_bind {A B} (m : M A) (k : A -> M B) :
  quiet m -> (forall a, quiet (k a)) -> quiet (bind m k).
Proof.
  intros Hm Hk s r s' H.
  apply bind_inv in H as [(a & s1 & H1 & H2)|(e & H1 & ->)].
  - apply Hm in H1 as (Hc1 & evs1 & Ht1 & Hf1).
    apply Hk in H2 as (Hc2 & evs2 & Ht2 & Hf2).
    split; [congruence|]. exists (evs1 ++ evs2). split.
    + rewrite Ht2, Ht1. now rewrite app_assoc.
    + now apply Forall_app.
  - now apply Hm in H1.
Qed.

Lemma quiet_for_each {A R} (xs : list A) (body : A -> M (option R)) :
  (forall x, quiet (body x)) -> quiet (for_each xs body).
Proof.
  intros Hb. induction xs as [|x xs IH]; simpl.
  - apply quiet_ret.
  - apply quiet_bind; [apply Hb|]. intros [v|]; [apply quiet_ret|exact IH].
Qed.

Lemma quiet_any_map {A} (f : A -> M bool) (xs : list A) :
  (forall x, quiet (f x)) -> quiet (any_map f xs).
Proof.
  intros Hf. induction xs as [|x xs IH]; simpl.
  - apply quiet_ret.
  - apply quiet_bind; [apply Hf|]. intros [|]; [apply quiet_ret|exact IH].
Qed.

Create HintDb quiet.
#[local] Hint Resolve quiet_ret quiet_raise quiet_snapshot quiet_load : quiet.

Lemma quiet_validate_bounds row col ship_len orientation filler :
  quiet (validate_bounds row col ship_len orientation filler).
Proof.
  unfold validate_bounds.
  repeat match goal with |- quiet (if ?c then _ else _) => destruct c end;
    auto with quiet;
    (apply quiet_bind;
     [ apply quiet_for_each; intros i; apply quiet_bind; [auto with quiet|];
       intros c; destruct (negb _); auto with quiet
     | intros [b|]; auto with quiet ]).
Qed.

Lemma quiet_radar_scan r c ignore : quiet (radar_scan r c ignore).
Proof.
  unfold radar_scan. apply quiet_any_map. intros t.
  apply quiet_bind; auto with quiet.
Qed.

Lemma quiet_radar_hint radar r c : quiet (radar_hint radar r c).
Proof.
  unfold radar_hint. destruct radar; [|auto with quiet].
  apply quiet_bind; [apply quiet_radar_scan|].
  intros [|]; [now apply quiet_emit|auto with quiet].
Qed.

(** ** Placement *)

Lemma ships_len_catalog ship :
  ~ In ship ["A"; "B"; "S"; "D"; "P"] <-> SHIPS_LEN !! ship = None.
Proof.
  unfold SHIPS_LEN. split.
  - intros H. simpl in H.
    repeat (rewrite lookup_insert_ne by tauto).
    apply lookup_singleton_ne. tauto.
  - intros H [<-|[<-|[<-|[<-|[<-|[]]]]]]; vm_compute in H; discriminate.
Qed.

(** C10: for a ship string outside the catalog {A, B, S, D, P} the lookup
    [SHIPS_LEN[ship]] raises [KeyError], for every board, coordinate and
    orientation; [place_ship] stops there, before any cell of the board has
    been read or written and without returning a rejection. *)
Theorem place_ship_unknown_kind :
  forall (ship : string), ~ In ship ["A"; "B"; "S"; "D"; "P"] ->
  forall (row col : Z) (orientation filler : string) (s : Store),
    place_ship row col ship orientation filler s = (Raise KeyError, s).
Proof.
  intros ship Hship row col orientation filler s.
  apply ships_len_catalog in Hship.
  unfold place_ship, ships_len. rewrite Hship. reflexivity.
Qed.

Lemma place_ship_unknown_kind_witness :
  ~ In "Z" ["A"; "B"; "S"; "D"; "P"] /\
  place_ship 3 4 "Z" "h" "~" (fresh fleet_board) = (Raise KeyError, fresh fleet_board).
Proof.
  assert (H : ~ In "Z" ["A"; "B"; "S"; "D"; "P"]).
  { simpl. intros [E|[E|[E|[E|[E|[]]]]]]; discriminate E. }
  split; [exact H|].
  exact (place_ship_unknown_kind "Z" H 3 4 "h" "~" (fresh fleet_board)).
Defined.

(** The result of [place_ship] once the length is known and the run has
    been validated. *)
Lemma place_ship_inv row col ship orientation filler s r s' :
  place_ship row col ship orientation filler s = (r, s') ->
  (SHIPS_LEN !! ship = None /\ r = Raise KeyError /\ s' = s) \/
  exists len,
    SHIPS_LEN !! ship = Some len /\
    ((exists e, validate_bounds row col len orientation "~" s = (Raise e, s')
                /\ r = Raise e) \/
     (validate_bounds row col len orientation "~" s = (Ok false, s')
      /\ r = Ok (false, cells s')) \/
     (exists s1, validate_bounds row col len orientation "~" s = (Ok true, s1) /\
        (if String.eqb orientation "v" then
           (for_each (R := Empty_set) (range len)
              (fun i => store (row + i) col ship ;;; ret None) ;;;
            b <~ snapshot; ret (true, b))
         else if String.eqb orientation "h" then
           (for_each (R := Empty_set) (range len)
              (fun i => store row (col + i) ship ;;; ret None) ;;;
            b <~ snapshot; ret (true, b))
         else raise ValueError) s1 = (r, s'))).
Proof.
  unfold place_ship, ships_len. intros H.
  destruct (SHIPS_LEN !! ship) as [len|] eqn:Elen.
  - right. exists len. split; [reflexivity|].
    change (ret len) with (@ret Z len) in H.
    unfold ret at 1 in H. unfold bind at 1 in H.
    unfold bind at 1 in H.
    destruct (validate_bounds row col len orientation "~" s) as [[valid|e] s1].
    + unfold bind at 1 in H. unfold snapshot at 1 in H.
      destruct valid; simpl negb in H; cbv iota in H.
      * right. right. exists s1. split; [reflexivity|]. exact H.
      * right. left. injection H as <- <-. split; reflexivity.
    + left. injection H as <- <-. exists e. split; reflexivity.
  - left. injection H as <- <-. auto.
Qed.

Lemma for_each_store_result (xs : list Z) (f : Z -> M unit) s r s' :
  (for_each (R := Empty_set) xs (fun i => f i ;;; ret None) ;;;
   b <~ snapshot; ret (true, b)) s = (r, s') ->
  (exists e, r = Raise e) \/ r = Ok (true, cells s').
Proof.
  intros H. apply bind_inv in H as [(a & s1 & H1 & H2)|(e & H1 & ->)].
  - right. unfold bind, snapshot, ret in H2. now injection H2 as <- <-.
  - left. eauto.
Qed.

(** An orientation other than ["v"] and ["h"] is a rejection, not the
    [ValueError] of the last branch, which is never reached. *)
Lemma place_ship_unknown_orientation row col ship len orientation filler s :
  SHIPS_LEN !! ship = Some len -> orientation <> "v" -> orientation <> "h" ->
  place_ship row col ship orientation filler s = (Ok (false, cells s), s).
Proof.
  intros Hlen Hv Hh. apply String.eqb_neq in Hv, Hh.
  unfold place_ship, ships_len. rewrite Hlen.
  unfold bind at 1. unfold ret at 1. unfold bind at 1.
  unfold validate_bounds, str_in. cbn [existsb]. rewrite Hv, Hh. reflexivity.
Qed.

(** C6: when [place_ship] rejects a placement (it returns [False]: out of
    bounds, overlap or unknown orientation), the board it returns equals
    the board it was given, the board object itself is unchanged, and the
    accesses made during the call contain no write at all. *)
Theorem place_ship_rejection_atomic :
  forall (row col : Z) (ship orientation filler : string) (s s' : Store) (b : Board),
    place_ship row col ship orientation filler s = (Ok (false, b), s') ->
    b = cells s /\ cells s' = cells s /\
    exists evs, trace s' = trace s ++ evs /\
                Forall (fun e => is_write e = false) evs.
Proof.
  intros row col ship orientation filler s s' b H.
  apply place_ship_inv in H as [(_ & H & _)|(len & Hlen & H)]; [discriminate|].
  destruct H as [(e & _ & H)|[(Hv & H)|(s1 & Hv & H)]]; [discriminate| |].
  - injection H as ->.
    apply quiet_validate_bounds in Hv as (Hc & evs & Ht & Hf).
    split; [assumption|]. split; [assumption|]. eauto.
  - exfalso. destruct (String.eqb orientation "v").
    + apply for_each_store_result in H as [(e & H)|H]; discriminate.
    + destruct (String.eqb orientation "h").
      * apply for_each_store_result in H as [(e & H)|H]; discriminate.
      * discriminate.
Qed.

Lemma place_ship_rejection_atomic_witness :
  place_ship 0 0 "B" "h" "~" (fresh fleet_board)
  = (Ok (false, fleet_board), mkStore fleet_board [Rd 0 0]) /\
  (fleet_board = cells (fresh fleet_board) /\
   cells (mkStore fleet_board [Rd 0 0]) = cells (fresh fleet_board) /\
   exists evs, trace (mkStore fleet_board [Rd 0 0]) = trace (fresh fleet_board) ++ evs /\
               Forall (fun e => is_write e = false) evs).
Proof.
  assert (H : place_ship 0 0 "B" "h" "~" (fresh fleet_board)
              = (Ok (false, fleet_board), mkStore fleet_board [Rd 0 0])).
  { vm_compute. reflexivity. }
  split; [exact H|].
  exact (place_ship_rejection_atomic 0 0 "B" "h" "~" _ _ _ H).
Defined.

(** ** Painted boards *)

Lemma cell_paint P v b i j :
  cell (paint P v b) i j = (fun c => if P i j then v else c) <$> cell b i j.
Proof.
  unfold cell, paint. rewrite list_lookup_imap.
  destruct (b !! i) as [row|]; simpl; [|reflexivity].
  now rewrite list_lookup_imap.
Qed.

Lemma paint_ext P Q v b :
  (forall i j, P i j = Q i j) -> paint P v b = paint Q v b.
Proof.
  intros H. unfold paint. apply imap_ext. intros i row _.
  apply imap_ext. intros j c _. now rewrite H.
Qed.

Lemma paint_none v b : paint (fun _ _ => false) v b = b.
Proof.
  unfold paint. apply list_eq. intros i. rewrite list_lookup_imap.
  destruct (b !! i) as [row|]; simpl; [|reflexivity]. f_equal.
  apply list_eq. intros j. rewrite list_lookup_imap.
  now destruct (row !! j).
Qed.

Lemma paint_paint P Q v b :
  paint P v (paint Q v b) = paint (fun i j => P i j || Q i j) v b.
Proof.
  unfold paint. apply list_eq. intros i. rewrite !list_lookup_imap.
  destruct (b !! i) as [row|]; simpl; [|reflexivity]. f_equal.
  apply list_eq. intros j. rewrite !list_lookup_imap.
  destruct (row !! j) as [c|]; simpl; [|reflexivity]. f_equal.
  destruct (P i j), (Q i j); reflexivity.
Qed.

Lemma insert_paint b ri ci row v :
  b !! ri = Some row -> (ci < length row)%nat ->
  <[ri := <[ci := v]> row]> b
  = paint (fun i j => bool_decide ((i, j) = (ri, ci))) v b.
Proof.
  intros Hr Hc. unfold paint. apply list_eq. intros i.
  rewrite list_lookup_imap.
  destruct (decide (i = ri)) as [->|Hi].
  - rewrite list_lookup_insert_eq by (eapply lookup_lt_Some; eassumption).
    rewrite Hr. simpl. f_equal. apply list_eq. intros j.
    rewrite list_lookup_imap.
    destruct (decide (j = ci)) as [->|Hj].
    + rewrite list_lookup_insert_eq by assumption.
      apply lookup_lt_is_Some_2 in Hc as [c ->]. simpl.
      now rewrite bool_decide_eq_true_2.
    + rewrite list_lookup_insert_ne by auto.
      destruct (row !! j) as [c|]; simpl; [|reflexivity].
      rewrite bool_decide_eq_false_2; [reflexivity|]. intros [= ]; auto.
  - rewrite list_lookup_insert_ne by auto.
    destruct (b !! i) as [r|]; simpl; [|reflexivity]. f_equal.
    apply list_eq. intros j. rewrite list_lookup_imap.
    destruct (r !! j) as [c|]; simpl; [|reflexivity].
    rewrite bool_decide_eq_false_2; [reflexivity|]. intros [= ]; auto.
Qed.

(** A store at subscripts that are not negative paints the cell they name. *)
Lemma board_set_paint b i j old v :
  0 <= i -> 0 <= j -> board_get b i j = Some old ->
  board_set b i j v
  = Some (paint (fun i' j' => bool_decide ((i', j') = (Z.to_nat i, Z.to_nat j))) v b).
Proof.
  intros Hi Hj Hg.
  destruct (board_set_defined _ _ _ _ v Hg) as [b' Hs]. rewrite Hs. f_equal.
  apply board_set_inv in Hs as (ri & ci & row & Ei & Er & Ec & Hlt & ->).
  rewrite index_nonneg in Ei, Ec by assumption.
  destruct (i <? _); [injection Ei as <-|discriminate].
  destruct (j <? _); [injection Ec as <-|discriminate].
  now apply insert_paint.
Qed.

Lemma board_get_paint P v b i j old :
  board_get b i j = Some old -> exists c, board_get (paint P v b) i j = Some c.
Proof.
  intros H. apply board_get_inv in H as (ri & ci & row & Ei & Er & Ec & Hold).
  unfold board_get, getitem, paint.
  rewrite length_imap, Ei. simpl. rewrite list_lookup_imap, Er. simpl.
  rewrite length_imap, Ec. simpl. rewrite list_lookup_imap, Hold. simpl. eauto.
Qed.

(** The loop [for i in range(..): board[fi(i)][fj(i)] = v] over cells that
    exist paints exactly those cells. *)
Lemma for_each_store (fi fj : Z -> Z) (v : string) (xs : list Z) s :
  (forall k, In k xs ->
     0 <= fi k /\ 0 <= fj k /\ exists c, board_get (cells s) (fi k) (fj k) = Some c) ->
  for_each (R := Empty_set) xs (fun k => store (fi k) (fj k) v ;;; ret None) s
  = (Ok None,
     mkStore
       (paint (fun i j =>
                 bool_decide ((i, j) ∈ map (fun k => (Z.to_nat (fi k), Z.to_nat (fj k))) xs))
              v (cells s))
       (trace s ++ map (fun k => Wr (fi k) (fj k) v) xs)).
Proof.
  revert s. induction xs as [|x xs IH]; intros s Hxs.
  - simpl. unfold ret. f_equal. destruct s as [b t]. simpl.
    rewrite app_nil_r. f_equal.
    transitivity (paint (fun _ _ => false) v b); [symmetry; apply paint_none|].
    apply paint_ext. intros i j.
    first [ reflexivity
          | symmetry; apply bool_decide_eq_false_2; apply not_elem_of_nil ].
  - destruct (Hxs x (or_introl eq_refl)) as (Hi & Hj & c & Hc).
    cbn [for_each]. unfold bind at 1. unfold bind at 1. unfold store at 1.
    rewrite (board_set_paint _ _ _ _ v Hi Hj Hc). unfold ret at 1.
    rewrite IH.
    + cbn [cells trace]. f_equal. f_equal.
      * rewrite paint_paint. apply paint_ext. intros i j. cbn [map].
        destruct (decide ((i, j) = (Z.to_nat (fi x), Z.to_nat (fj x)))) as [E|E].
        -- rewrite (bool_decide_eq_true_2 _ E), orb_true_r.
           symmetry. apply bool_decide_eq_true_2. rewrite E. apply list_elem_of_here.
        -- rewrite (bool_decide_eq_false_2 _ E), orb_false_r.
           apply bool_decide_ext. rewrite elem_of_cons. tauto.
      * cbn [map]. now rewrite <- app_assoc.
    + intros k Hk. destruct (Hxs k (or_intror Hk)) as (Hi' & Hj' & c' & Hc').
      split; [assumption|]. split; [assumption|]. cbn [cells].
      eapply board_get_paint. eassumption.
Qed.

(** The checking loop of [validate_bounds]: it ends without [return] only
    if every cell it read holds the filler, and it only ever returns
    [False]. *)
Lemma for_each_check (fi fj : Z -> Z) (filler : string) (xs : list Z) s r s' :
  for_each xs (fun k =>
     c <~ load (fi k) (fj k);
     if negb (String.eqb c filler) then ret (Some false) else ret None) s
  = (Ok r, s') ->
  match r with
  | None => forall k, In k xs -> board_get (cells s) (fi k) (fj k) = Some filler
  | Some b => b = false
  end.
Proof.
  revert s. induction xs as [|x xs IH]; intros s H.
  - injection H as <- <-. intros k [].
  - cbn [for_each] in H. unfold bind at 1 in H. unfold bind at 1 in H.
    unfold load at 1 in H.
    destruct (board_get (cells s) (fi x) (fj x)) as [c|] eqn:Ec; [|discriminate].
    destruct (String.eqb c filler) eqn:E; simpl negb in H; cbv iota in H.
    + unfold ret at 1 in H. apply IH in H. cbn [cells] in H.
      destruct r as [b|]; [assumption|].
      intros k [<-|Hk]; [|now apply H].
      apply String.eqb_eq in E. now subst.
    + injection H as <- <-. reflexivity.
Qed.

Lemma in_range k n : In k (range n) <-> 0 <= k < n.
Proof.
  unfold range, range2. rewrite in_map_iff. split.
  - intros (m & <- & Hm). apply in_seq in Hm. lia.
  - intros Hk. exists (Z.to_nat k). split; [lia|]. apply in_seq. lia.
Qed.

Lemma length_range n : length (range n) = Z.to_nat n.
Proof.
  unfold range, range2. rewrite length_map, length_seq. f_equal. lia.
Qed.

(** [validate_bounds] says yes only through one of its two loops. *)
Lemma validate_bounds_true row col len orientation filler s s1 :
  validate_bounds row col len orientation filler s = (Ok true, s1) ->
  (orientation = "v" /\ row + len < 10 /\
   forall k, In k (range len) -> board_get (cells s) (row + k) col = Some filler) \/
  (orientation = "h" /\ col + len < 10 /\
   forall k, In k (range len) -> board_get (cells s) row (col + k) = Some filler).
Proof.
  unfold validate_bounds. intros H.
  destruct (String.eqb orientation "v") eqn:Ev.
  - apply String.eqb_eq in Ev. subst orientation.
    destruct (row + len <? 10) eqn:Eb; cbn [andb] in H.
    + left. apply bind_inv in H as [(r & s2 & H1 & H2)|(e & _ & [=])].
      apply (for_each_check (fun k => row + k) (fun _ => col)) in H1.
      destruct r as [b|].
      * injection H2 as -> _. discriminate.
      * repeat split; [lia|exact H1].
    + exfalso. change (String.eqb "v" "h") with false in H. cbn [andb] in H.
      change (negb (str_in "v" ["h"; "v"])) with false in H. cbv iota in H.
      replace (row + len >=? 10) with true in H by lia.
      discriminate.
  - cbn [andb] in H. destruct (String.eqb orientation "h") eqn:Eh.
    + apply String.eqb_eq in Eh. subst orientation.
      destruct (col + len <? 10) eqn:Eb; cbn [andb] in H.
      * right. apply bind_inv in H as [(r & s2 & H1 & H2)|(e & _ & [=])].
        apply (for_each_check (fun _ => row) (fun k => col + k)) in H1.
        destruct r as [b|].
        -- injection H2 as -> _. discriminate.
        -- repeat split; [lia|exact H1].
      * exfalso.
        change (negb (str_in "h" ["h"; "v"])) with false in H. cbv iota in H.
        replace (col + len >=? 10) with true in H by lia.
        rewrite orb_true_r in H. discriminate.
    + exfalso. cbn [andb] in H. unfold str_in in H. cbn [existsb] in H.
      rewrite Eh, Ev in H. discriminate.
Qed.

Lemma run_cells_length row col len orientation :
  length (run_cells row col len orientation) = Z.to_nat len.
Proof. unfold run_cells. now rewrite length_map, length_range. Qed.

Lemma run_cells_NoDup row col len orientation :
  0 <= row -> 0 <= col -> NoDup (run_cells row col len orientation).
Proof.
  intros Hr Hc. unfold run_cells, range, range2. rewrite map_map.
  apply NoDup_ListNoDup, Finite.Injective_map_NoDup; [|apply seq_NoDup].
  intros x y. destruct (String.eqb orientation "v"); intros [= ]; lia.
Qed.

(** C8: a call of [place_ship] at an in-bounds coordinate that reports
    success was given a catalogued ship and a recognised orientation; the
    run that starts at [(row, col)] consists of exactly [SHIPS_LEN[ship]]
    distinct cells, all of them water before the call; afterwards the board
    (which is also the board returned) holds the ship's marker in every
    cell of the run and, in every other cell, exactly what it held
    before. *)
Theorem place_ship_success_frame :
  forall (row col : Z) (ship orientation filler : string) (s s' : Store) (b : Board),
    place_ship row col ship orientation filler s = (Ok (true, b), s') ->
    0 <= row < 10 -> 0 <= col < 10 ->
    exists len,
      SHIPS_LEN !! ship = Some len /\
      (orientation = "v" \/ orientation = "h") /\
      length (run_cells row col len orientation) = Z.to_nat len /\
      NoDup (run_cells row col len orientation) /\
      (forall i j, (i, j) ∈ run_cells row col len orientation ->
                   cell (cells s) i j = Some "~") /\
      cells s' = paint (in_run row col len orientation) ship (cells s) /\
      b = cells s'.
Proof.
  intros row col ship orientation filler s s' b H Hrow Hcol.
  apply place_ship_inv in H as [(_ & H & _)|(len & Hlen & H)]; [discriminate|].
  destruct H as [(e & _ & H)|[(_ & H)|(s1 & Hv & H)]]; try discriminate.
  exists len. split; [assumption|].
  pose proof (quiet_validate_bounds _ _ _ _ _ _ _ _ Hv) as (Hc1 & _).
  apply validate_bounds_true in Hv.
  assert (Horient : orientation = "v" \/ orientation = "h") by tauto.
  split; [assumption|].
  split; [apply run_cells_length|].
  split; [apply run_cells_NoDup; lia|].
  destruct Hv as [(-> & Hb & Hfree)|(-> & Hb & Hfree)].
  - split.
    { intros i j Hij. unfold run_cells in Hij.
      apply list_elem_of_In, in_map_iff in Hij as (k & [= <- <-] & Hk).
      pose proof (proj1 (in_range _ _) Hk).
      rewrite <- board_get_cell by lia. now apply Hfree. }
    change (String.eqb "v" "v") with true in H. cbv iota in H.
    unfold bind at 1 in H.
    rewrite (for_each_store (fun k => row + k) (fun _ => col)) in H.
    + unfold bind, snapshot, ret in H. cbn [cells] in H.
      injection H as <- <-. cbn [cells]. rewrite Hc1. split; reflexivity.
    + intros k Hk. pose proof (proj1 (in_range _ _) Hk).
      split; [lia|]. split; [lia|]. rewrite Hc1. eauto.
  - split.
    { intros i j Hij. unfold run_cells in Hij.
      apply list_elem_of_In, in_map_iff in Hij as (k & [= <- <-] & Hk).
      pose proof (proj1 (in_range _ _) Hk).
      rewrite <- board_get_cell by lia. now apply Hfree. }
    change (String.eqb "h" "v") with false in H.
    change (String.eqb "h" "h") with true in H. cbv iota in H.
    unfold bind at 1 in H.
    rewrite (for_each_store (fun _ => row) (fun k => col + k)) in H.
    + unfold bind, snapshot, ret in H. cbn [cells] in H.
      injection H as <- <-. cbn [cells]. rewrite Hc1. split; reflexivity.
    + intros k Hk. pose proof (proj1 (in_range _ _) Hk).
      split; [lia|]. split; [lia|]. rewrite Hc1. eauto.
Qed.

Lemma place_ship_success_frame_witness :
  exists s' b,
    place_ship 0 7 "P" "h" "~" (fresh empty_board) = (Ok (true, b), s') /\
    cell b 0 7 = Some "P" /\ cell b 0 8 = Some "P" /\
    exists len,
      SHIPS_LEN !! "P" = Some len /\
      ("h" = "v" \/ "h" = "h") /\
      length (run_cells 0 7 len "h") = Z.to_nat len /\
      NoDup (run_cells 0 7 len "h") /\
      (forall i j, (i, j) ∈ run_cells 0 7 len "h" ->
                   cell (cells (fresh empty_board)) i j = Some "~") /\
      cells s' = paint (in_run 0 7 len "h") "P" (cells (fresh empty_board)) /\
      b = cells s'.
Proof.
  destruct (place_ship 0 7 "P" "h" "~" (fresh empty_board)) as [r s'] eqn:E.
  vm_compute in E. injection E as <- <-.
  eexists. eexists. split; [reflexivity|].
  split; [reflexivity|]. split; [reflexivity|].
  apply (place_ship_success_frame 0 7 "P" "h" "~" (fresh empty_board)).
  - vm_compute. reflexivity.
  - lia.
  - lia.
Defined.

(** The strict comparison of [validate_bounds] turns away every horizontal
    run that would end in the last column, and every vertical run that
    would end in the last row, without looking at a single cell. *)
Lemma validate_bounds_last_line row col len orientation filler s :
  (orientation = "h" /\ col + len = 10) \/ (orientation = "v" /\ row + len = 10) ->
  validate_bounds row col len orientation filler s = (Ok false, s).
Proof.
  unfold validate_bounds. intros [[-> H]|[-> H]].
  - change (String.eqb "h" "v") with false. change (String.eqb "h" "h") with true.
    cbn [andb]. replace (col + len <? 10) with false by lia.
    change (negb (str_in "h" ["h"; "v"])) with false. cbv iota.
    replace (col + len >=? 10) with true by lia. now rewrite orb_true_r.
  - change (String.eqb "v" "v") with true. change (String.eqb "v" "h") with false.
    cbn [andb]. replace (row + len <? 10) with false by lia.
    change (negb (str_in "v" ["h"; "v"])) with false. cbv iota.
    now replace (row + len >=? 10) with true by lia.
Qed.

(** C1 (the code departs from the claim): the patrol boat has length 2, so
    a horizontal run from (0,8) covers (0,8) and (0,9) and satisfies
    [col + length <= 10]; [place_ship] nevertheless rejects it on the empty
    board, as it rejects the vertical run from (8,0), because
    [validate_bounds] compares with [< 10].  The last run it accepts starts
    one cell earlier, and the run from (0,9) is rejected as well. *)
Theorem place_ship_last_column_rejected :
  SHIPS_LEN !! "P" = Some 2 /\
  place_ship 0 8 "P" "h" "~" (fresh empty_board)
  = (Ok (false, empty_board), fresh empty_board) /\
  place_ship 8 0 "P" "v" "~" (fresh empty_board)
  = (Ok (false, empty_board), fresh empty_board) /\
  place_ship 0 9 "P" "h" "~" (fresh empty_board)
  = (Ok (false, empty_board), fresh empty_board) /\
  place_ship 0 7 "P" "h" "~" (fresh empty_board)
  = (Ok (true, paint (in_run 0 7 2 "h") "P" empty_board),
     mkStore (paint (in_run 0 7 2 "h") "P" empty_board)
             [Rd 0 7; Rd 0 8; Wr 0 7 "P"; Wr 0 8 "P"]).
Proof. repeat split; vm_compute; reflexivity. Qed.

(** ** The radar *)

(** C2 (the code departs from the claim): the filter of [radar_scan] tests
    the row offset against the column and the column offset against the
    row.  Scanning the corner (0,9) of the empty board therefore keeps all
    nine offsets, reads row [-1] (the last row, by Python's subscript rule)
    and then raises [IndexError] on column 10.  Scanning (5,0) of the fleet
    board drops the three cells above it and answers [False] although
    (4,0), right above, holds a ship.  With the radar switched on, a shot
    at (0,9) of the fleet board ends the session with that [IndexError]. *)
Theorem radar_scan_out_of_range :
  radar_scan 0 9 ["@"; "X"; "~"] (fresh empty_board)
  = (Raise IndexError, mkStore empty_board [Rd (-1) 8; Rd (-1) 9; Rd (-1) 10]) /\
  cell fleet_board 4 0 = Some "A" /\
  radar_scan 5 0 ["@"; "X"; "~"] (fresh fleet_board)
  = (Ok false, mkStore fleet_board [Rd 5 0; Rd 5 1; Rd 6 0; Rd 6 1]) /\
  (game_loop ["0"; "9"] false true "~" 20 (fresh fleet_board)).1 = Raise IndexError.
Proof. repeat split; vm_compute; reflexivity. Qed.

(** ** The turn loop *)

(** [game_loop] runs out of ammunition when the turn number, one more than
    the number of shots on the board, equals [turns]. *)
Lemma game_loop_out_of_ammo inputs cheats radar filler turns s :
  win_condition (cells s) ["X"; "@"; "~"] = false ->
  get_turn (cells s) ["@"; "X"] = turns ->
  game_loop inputs cheats radar filler turns s = (Ok OutOfAmmo, s).
Proof.
  intros Hw Ht.
  destruct inputs; cbn [game_loop]; unfold bind, snapshot;
    rewrite Hw, Ht, Z.eqb_refl; reflexivity.
Qed.

(** C3 (the code departs from the claim): on the fleet board, with the
    default limit of 20, the session ends in [OutOfAmmo] once nineteen
    misses at distinct water cells have been resolved: the turn number is
    then 20 and the twentieth answer is never read.  After eighteen misses
    the loop is still asking for input. *)
Theorem out_of_ammo_after_19_shots :
  length water19 = 19%nat /\ NoDup (water20th :: water19) /\
  Forall (fun t => board_get fleet_board t.1 t.2 = Some "~") (water20th :: water19) /\
  (exists s',
     game_loop (shots (water19 ++ [water20th])) false false "~" 20 (fresh fleet_board)
     = (Ok OutOfAmmo, s') /\
     get_turn (cells s') ["@"; "X"] = 20 /\
     win_condition (cells s') ["X"; "@"; "~"] = false /\
     board_get (cells s') water20th.1 water20th.2 = Some "~") /\
  (exists s',
     game_loop (shots (firstn 18 water19)) false false "~" 20 (fresh fleet_board)
     = (Raise EOFError, s') /\
     get_turn (cells s') ["@"; "X"] = 19).
Proof.
  split; [reflexivity|].
  split; [apply (bool_decide_unpack _); vm_compute; exact I|].
  split; [repeat constructor|].
  split; eexists; (split; [vm_compute; reflexivity|]); repeat split.
Qed.

(** ** The state codec and the win condition *)

Lemma row_markers ri k (row : list string) :
  map marker
    (flat_map (fun '(ci, col) =>
       if negb (String.eqb col "~") then [(col, ri, ci)] else [])
       (enumerate_from k row))
  = List.filter (fun c => negb (String.eqb c "~")) row.
Proof.
  revert k. induction row as [|c row IH]; intros k; [reflexivity|].
  cbn [enumerate_from flat_map List.filter]. rewrite map_app, IH.
  now destruct (negb (String.eqb c "~")).
Qed.

(** The markers that [get_state] emits are the cells that are not ["~"],
    in row-major order. *)
Lemma get_state_markers b filler :
  map marker (get_state b filler)
  = List.filter (fun c => negb (String.eqb c "~")) (concat b).
Proof.
  unfold get_state. unfold enumerate at 2. generalize 0 at 1 as k.
  induction b as [|row b IH]; intros k; [reflexivity|].
  cbn [enumerate_from flat_map concat].
  rewrite map_app, List.filter_app, IH. f_equal. apply row_markers.
Qed.

Lemma in_concat_cell (b : Board) c :
  In c (concat b) <-> exists i j, cell b i j = Some c.
Proof.
  rewrite in_concat. unfold cell. split.
  - intros (row & Hrow & Hc).
    apply list_elem_of_In, list_elem_of_lookup in Hrow as [i Hi].
    apply list_elem_of_In, list_elem_of_lookup in Hc as [j Hj].
    exists i, j. rewrite Hi. exact Hj.
  - intros (i & j & H). destruct (b !! i) as [row|] eqn:Hi; [|discriminate].
    exists row. split; apply list_elem_of_In, list_elem_of_lookup; eauto.
Qed.

Lemma str_in_In x l : str_in x l = true <-> In x l.
Proof.
  unfold str_in. rewrite existsb_exists. split.
  - intros (y & Hy & E). apply String.eqb_eq in E. now subst.
  - intros H. exists x. split; [assumption|apply String.eqb_refl].
Qed.

Lemma occupied_false c :
  occupied c = false <-> str_in c ["X"; "@"; "~"] = true.
Proof.
  unfold occupied. rewrite negb_false_iff, !str_in_In. simpl. tauto.
Qed.

Lemma win_condition_Forall b :
  win_condition b ["X"; "@"; "~"] = true
  <-> Forall (fun c => occupied c = false) (concat b).
Proof.
  unfold win_condition. rewrite forallb_forall, List.Forall_forall.
  split; intros H c Hc; apply occupied_false; now apply H.
Qed.

Lemma Forall_filter_water (P : string -> Prop) (l : list string) :
  P "~" ->
  (Forall P (List.filter (fun c => negb (String.eqb c "~")) l) <-> Forall P l).
Proof.
  intros Hw. rewrite !List.Forall_forall. split; intros H c Hc.
  - destruct (String.eqb c "~") eqn:E.
    + apply String.eqb_eq in E. now subst.
    + apply H, filter_In. split; [assumption|]. now rewrite E.
  - apply filter_In in Hc as [Hc _]. now apply H.
Qed.

(** C9: [win_condition] holds exactly when no cell of the board holds a
    ship, and exactly when every record that [get_state] emits carries the
    hit code or the miss code; on a board whose cells are drawn from the
    five ship codes, ["@"], ["X"] and ["~"] this is the same as: no record
    of [get_state] carries a ship code of [SHIPS_LEN]. *)
Theorem win_condition_iff_no_ship_record :
  forall (g : Board),
    (win_condition g ["X"; "@"; "~"] = true
     <-> forall i j c, cell g i j = Some c -> occupied c = false) /\
    (win_condition g ["X"; "@"; "~"] = true
     <-> Forall (fun r => marker r = "X" \/ marker r = "@") (get_state g "~")) /\
    ((forall i j c, cell g i j = Some c ->
                    In c ["A"; "B"; "S"; "D"; "P"; "@"; "X"; "~"]) ->
     (win_condition g ["X"; "@"; "~"] = true
      <-> Forall (fun r => SHIPS_LEN !! marker r = None) (get_state g "~"))).
Proof.
  intros g.
  assert (Hrec : win_condition g ["X"; "@"; "~"] = true
                 <-> Forall (fun r => marker r = "X" \/ marker r = "@")
                            (get_state g "~")).
  { rewrite win_condition_Forall.
    rewrite <- (List.Forall_map marker (fun m => m = "X" \/ m = "@")).
    rewrite get_state_markers.
    rewrite <- (Forall_filter_water (fun c => occupied c = false)) by reflexivity.
    rewrite !List.Forall_forall.
    split; intros H c Hc; pose proof Hc as Hc';
      apply filter_In in Hc' as [_ Hne]; specialize (H c Hc);
      apply negb_true_iff in Hne.
    - apply occupied_false, str_in_In in H. simpl in H.
      destruct H as [<-|[<-|[<-|[]]]]; auto. discriminate.
    - apply occupied_false, str_in_In. destruct H as [-> | ->]; simpl; auto. }
  split; [|split; [exact Hrec|]].
  - rewrite win_condition_Forall, List.Forall_forall. split.
    + intros H i j c Hc. apply H, in_concat_cell. eauto.
    + intros H c Hc. apply in_concat_cell in Hc as (i & j & Hc). eauto.
  - intros Halpha. rewrite Hrec, !List.Forall_forall.
    assert (Hm : forall r, In r (get_state g "~") ->
                 In (marker r) ["A"; "B"; "S"; "D"; "P"; "@"; "X"]).
    { intros r Hr. apply (in_map marker) in Hr.
      rewrite get_state_markers in Hr. apply filter_In in Hr as [Hc Hne].
      apply in_concat_cell in Hc as (i & j & Hc). apply Halpha in Hc.
      apply negb_true_iff, String.eqb_neq in Hne.
      simpl in Hc |- *. intuition congruence. }
    split; intros H r Hr; specialize (H r Hr); specialize (Hm r Hr); simpl in Hm.
    + destruct H as [-> | ->]; reflexivity.
    + destruct Hm as [E|[E|[E|[E|[E|[E|[E|[]]]]]]]]; rewrite <- E in *;
        solve [ discriminate H | auto ].
Qed.

Lemma win_condition_iff_no_ship_record_witness :
  (forall i j c, cell missed_board i j = Some c ->
                 In c ["A"; "B"; "S"; "D"; "P"; "@"; "X"; "~"]) /\
  (win_condition missed_board ["X"; "@"; "~"] = true
   <-> Forall (fun r => SHIPS_LEN !! marker r = None) (get_state missed_board "~")).
Proof.
  assert (H : forall i j c, cell missed_board i j = Some c ->
                            In c ["A"; "B"; "S"; "D"; "P"; "@"; "X"; "~"]).
  { intros i j c Hc.
    assert (Hin : In c (concat missed_board)) by (apply in_concat_cell; eauto).
    clear Hc. revert c Hin. apply List.Forall_forall.
    vm_compute. repeat (apply List.Forall_cons; [auto 10|]). apply List.Forall_nil. }
  split; [exact H|].
  exact (proj2 (proj2 (win_condition_iff_no_ship_record missed_board)) H).
Defined.

Lemma alter_as_insert (b : Board) i row (f : list string -> list string) :
  b !! i = Some row -> alter f i b = <[i := f row]> b.
Proof.
  intros Hi. apply list_eq. intros k.
  rewrite list_lookup_alter, list_lookup_insert.
  destruct (decide (i = k)) as [<-|Hk].
  - rewrite Hi. simpl. rewrite decide_True; [reflexivity|].
    split; [reflexivity|]. eapply lookup_lt_Some. eassumption.
  - rewrite decide_False by tauto. reflexivity.
Qed.

Lemma grid10_put b r : grid10 b -> grid10 (put b r).
Proof.
  intros [Hl Hr]. unfold put. split.
  - now rewrite length_alter.
  - apply Forall_alter; [assumption|]. intros row _ Hrow.
    now rewrite length_insert.
Qed.

Lemma grid10_generate filler : grid10 (generate_board 10 filler).
Proof. split; [reflexivity|]. repeat constructor. Qed.

(** On a 10 x 10 board a store succeeds exactly for subscripts in
    [-10, 10), whatever the marker. *)
Lemma board_set_grid10 b m r c :
  grid10 b ->
  board_set b r c m
  = if subscripts_ok (m, r, c) then Some (put b (m, r, c)) else None.
Proof.
  intros [Hl Hr]. unfold board_set, subscripts_ok, put, marker. cbn [fst snd].
  rewrite Hl, index_mod10.
  destruct ((-10 <=? r) && (r <? 10)) eqn:Er; cbn [andb]; [|reflexivity].
  cbn [mbind option_bind].
  assert (Hlt : (Z.to_nat (r mod 10) < length b)%nat).
  { rewrite Hl. pose proof (Z.mod_pos_bound r 10). lia. }
  apply lookup_lt_is_Some_2 in Hlt as [row Hrow]. rewrite Hrow.
  cbn [mbind option_bind].
  assert (Hlen : length row = 10%nat).
  { eapply (proj1 (List.Forall_forall _ _) Hr), list_elem_of_In, list_elem_of_lookup_2.
    eassumption. }
  rewrite Hlen, index_mod10.
  destruct ((-10 <=? c) && (c <? 10)) eqn:Ec.
  - cbn [mbind option_bind]. f_equal. symmetry. now apply alter_as_insert.
  - reflexivity.
Qed.

(** The loop of [set_state] on a 10 x 10 board. *)
Lemma set_state_loop (file : list Record3) b t :
  grid10 b ->
  exists s',
    for_each (R := Empty_set) file (fun '(ship, ri, ci) =>
      store ri ci ship ;;; ret None) (mkStore b t)
    = (if forallb subscripts_ok file then Ok None else Raise IndexError, s') /\
    (forallb subscripts_ok file = true -> cells s' = foldl put b file).
Proof.
  revert b t. induction file as [|[[m r] c] file IH]; intros b t Hb.
  - eexists. split; reflexivity.
  - cbn [for_each forallb]. unfold bind at 1. unfold bind at 1. unfold store at 1.
    cbn [cells trace]. rewrite (board_set_grid10 _ _ _ _ Hb).
    destruct (subscripts_ok (m, r, c)) eqn:E.
    + unfold ret at 1. cbn [andb foldl].
      destruct (IH (put b (m, r, c)) (t ++ [Wr r c m]) (grid10_put _ _ Hb))
        as (s' & H1 & H2).
      exists s'. split; assumption.
    + eexists. split; [reflexivity|]. discriminate.
Qed.

Lemma set_state_result (file : list Record3) b t :
  grid10 b ->
  (set_state file (mkStore b t)).1
  = if forallb subscripts_ok file then Ok (foldl put b file) else Raise IndexError.
Proof.
  intros Hb. unfold set_state.
  destruct (set_state_loop file b t Hb) as (s' & H1 & H2).
  unfold bind at 1. rewrite H1.
  destruct (forallb subscripts_ok file); [|reflexivity].
  unfold snapshot. cbn [fst]. now rewrite H2.
Qed.

(** C4, as the code has it: [io_load_board] fails, with [IndexError],
    exactly when some record carries a row or column outside [-10, 10).
    Markers are not inspected, and a subscript in [-10, 0) addresses the
    same cell as that subscript plus 10.  In every other case the result
    is the fresh board with each record written onto it in file order,
    with no check of ship contiguity. *)
Theorem io_load_board_result :
  forall (file : list Record3) (filler : string),
    (io_load_board file filler).1
    = if forallb subscripts_ok file
      then Ok (foldl put (generate_board 10 filler) file)
      else Raise IndexError.
Proof.
  intros file filler. unfold io_load_board.
  apply set_state_result, grid10_generate.
Qed.

(** C4, counterexample to the claim as stated: a save file whose first
    record carries the unknown marker ["Z"] and whose second record carries
    the row [-1] is loaded without any failure, and both records are
    applied. *)
Lemma io_load_board_accepts_malformed :
  str_in "Z" ["A"; "B"; "S"; "D"; "P"; "@"; "X"] = false /\
  ~ (0 <= -1 < 10) /\
  exists b,
    (io_load_board [("Z", 0, 0); ("A", -1, 3)] "~").1 = Ok b /\
    cell b 0 0 = Some "Z" /\ cell b 9 3 = Some "A".
Proof.
  split; [reflexivity|]. split; [lia|].
  eexists. split; [vm_compute; reflexivity|]. split; reflexivity.
Qed.

(** The records of one row, written onto a board whose row [ri] agrees with
    it up to column [length cs1] and is water from there on, complete that
    row. *)
Lemma put_row_records (ri : nat) (cs2 cs1 : list string) (B : Board) :
  (ri < 10)%nat -> (length cs1 + length cs2 <= 10)%nat ->
  B !! ri = Some (cs1 ++ repeat "~" (length cs2)) ->
  foldl put B
    (flat_map (fun '(ci, col) =>
       if negb (String.eqb col "~") then [(col, Z.of_nat ri, ci)] else [])
       (enumerate_from (Z.of_nat (length cs1)) cs2))
  = <[ri := cs1 ++ cs2]> B.
Proof.
  intros Hri. revert cs1 B.
  induction cs2 as [|c cs2 IH]; intros cs1 B Hlen HB.
  - cbn [enumerate_from flat_map foldl]. symmetry. now apply list_insert_id.
  - cbn [enumerate_from flat_map length repeat] in *.
    assert (Hk : Z.of_nat (length cs1) + 1 = Z.of_nat (length (cs1 ++ [c]))).
    { rewrite length_app. simpl. lia. }
    assert (Hlen' : (length (cs1 ++ [c]) + length cs2 <= 10)%nat).
    { rewrite length_app. simpl. lia. }
    rewrite Hk.
    destruct (String.eqb c "~") eqn:E; cbn [negb app].
    + apply String.eqb_eq in E. subst c.
      rewrite (IH (cs1 ++ ["~"]) B Hlen').
      * now rewrite <- app_assoc.
      * now rewrite <- app_assoc.
    + cbn [foldl].
      assert (Hput : put B (c, Z.of_nat ri, Z.of_nat (length cs1))
                     = <[ri := (cs1 ++ [c]) ++ repeat "~" (length cs2)]> B).
      { unfold put, marker. cbn [fst snd].
        rewrite !Z.mod_small by lia. rewrite !Nat2Z.id.
        rewrite (alter_as_insert _ _ _ _ HB). f_equal.
        rewrite insert_app_r_alt by lia. rewrite Nat.sub_diag.
        now rewrite <- app_assoc. }
      rewrite Hput, (IH (cs1 ++ [c]) _ Hlen').
      * rewrite list_insert_insert_eq. now rewrite <- app_assoc.
      * apply list_lookup_insert_eq. eapply lookup_lt_Some. eassumption.
Qed.

(** The records of the rows [g2], written onto a board whose first rows are
    [g1] and whose remaining rows are water, complete the board. *)
Lemma put_board_records (g2 g1 : Board) :
  (length g1 + length g2 <= 10)%nat ->
  Forall (fun row => length row = 10%nat) g2 ->
  foldl put (g1 ++ map (fun _ => repeat "~" 10) g2)
    (flat_map (fun '(ri, row) =>
       flat_map (fun '(ci, col) =>
         if negb (String.eqb col "~") then [(col, ri, ci)] else [])
         (enumerate row))
       (enumerate_from (Z.of_nat (length g1)) g2))
  = g1 ++ g2.
Proof.
  revert g1. induction g2 as [|row g2 IH]; intros g1 Hlen Hrows.
  - reflexivity.
  - apply Forall_cons in Hrows as [Hrow Hrows].
    cbn [enumerate_from flat_map map length] in *. rewrite foldl_app.
    assert (Hk : Z.of_nat (length g1) + 1 = Z.of_nat (length (g1 ++ [row]))).
    { rewrite length_app. simpl. lia. }
    unfold enumerate at 1.
    rewrite (put_row_records (length g1) row []).
    + rewrite insert_app_r_alt by lia. rewrite Nat.sub_diag. cbn [insert list_insert app].
      rewrite Hk.
      replace (g1 ++ row :: map (fun _ => repeat "~" 10) g2)
        with ((g1 ++ [row]) ++ map (fun _ => repeat "~" 10) g2)
        by now rewrite <- app_assoc.
      rewrite IH.
      * now rewrite <- app_assoc.
      * rewrite length_app. simpl. lia.
      * assumption.
    + lia.
    + simpl. lia.
    + rewrite list_lookup_middle by reflexivity. now rewrite Hrow.
Qed.

Lemma get_state_subscripts_ok (g : Board) filler :
  grid10 g -> forallb subscripts_ok (get_state g filler) = true.
Proof.
  intros [Hl Hr]. apply forallb_forall. intros [[m r] c] H.
  unfold get_state in H. apply in_flat_map in H as ([ri row] & Hrow & H).
  apply in_flat_map in H as ([ci col] & Hcol & H).
  destruct (negb (String.eqb col "~")); [|destruct H].
  destruct H as [[= -> -> ->]|[]].
  assert (Henum : forall A (l : list A) k i x,
             In (i, x) (enumerate_from k l) ->
             k <= i < k + Z.of_nat (length l) /\ In x l).
  { intros A l. induction l as [|y l IHl]; intros k i x Hin; [destruct Hin|].
    cbn [enumerate_from length] in *. destruct Hin as [[= -> ->]|Hin].
    - split; [lia|now left].
    - apply IHl in Hin as [? ?]. split; [lia|now right]. }
  apply Henum in Hrow as [Hri Hin]. apply Henum in Hcol as [Hci _].
  rewrite (proj1 (List.Forall_forall _ _) Hr _ Hin) in Hci. rewrite Hl in Hri.
  unfold subscripts_ok. cbn [fst snd]. lia.
Qed.

(** C5: for every 10 x 10 board, whatever its cells hold, loading the
    records that [get_state] emits for it onto a fresh board of water
    yields that very board. *)
Theorem load_after_save_roundtrip :
  forall (g : Board), grid10 g ->
    (io_load_board (get_state g "~") "~").1 = Ok g.
Proof.
  intros g Hg. unfold io_load_board.
  rewrite (set_state_result _ _ _ (grid10_generate "~")).
  rewrite (get_state_subscripts_ok g "~" Hg). f_equal.
  destruct Hg as [Hl Hr].
  replace (generate_board 10 "~") with ([] ++ map (fun _ => repeat "~" 10) g).
  - unfold get_state. unfold enumerate at 2.
    apply (put_board_records g []); [simpl; lia|assumption].
  - do 11 (destruct g as [|? g]; try discriminate Hl). reflexivity.
Qed.

Lemma load_after_save_roundtrip_witness :
  grid10 fleet_board /\
  (io_load_board (get_state fleet_board "~") "~").1 = Ok fleet_board.
Proof.
  assert (H : grid10 fleet_board).
  { split; [reflexivity|]. repeat constructor. }
  split; [exact H|]. exact (load_after_save_roundtrip fleet_board H).
Defined.

(** ** Shots stay *)





Lemma list_pair_ind {A} (P : list A -> Prop) :
  P [] -> (forall x, P [x]) -> (forall x y l, P l -> P (x :: y :: l)) ->
  forall l, P l.
Proof.
  intros H0 H1 H2.
  assert (H : forall l, P l /\ forall x, P (x :: l)).
  { induction l as [|y l [IH1 IH2]]; split; auto. }
  intros l. apply H.
Qed.




Lemma digit_answer d :
  0 <= d < 10 ->
  io_validate_input (str_digit d) digits = (true, str_digit d) /\
  String.eqb (str_digit d) "m" = false /\
  int_digit (str_digit d) = Some d.
Proof.
  intros Hd.
  assert (H : d = 0 \/ d = 1 \/ d = 2 \/ d = 3 \/ d = 4 \/
              d = 5 \/ d = 6 \/ d = 7 \/ d = 8 \/ d = 9) by lia.
  repeat destruct H as [H|H]; subst d; repeat split; reflexivity.
Qed.


(** * Further properties of the code *)

(** ** Fresh boards *)

Lemma generate_board_replicate dim filler :
  generate_board dim filler
  = replicate (Z.to_nat dim) (replicate (Z.to_nat dim) filler).
Proof.
  unfold generate_board.
  assert (Hrep : forall n, repeat filler n = replicate n filler)
    by (induction n; simpl; congruence).
  rewrite Hrep.
  assert (Hmap : forall (l : list Z) (x : list string),
             map (fun _ => x) l = replicate (length l) x)
    by (intros l x; induction l; simpl; congruence).
  now rewrite Hmap, length_range.
Qed.

Lemma get_state_water (b : Board) filler :
  Forall (Forall (fun c => c = "~")) b -> get_state b filler = [].
Proof.
  intros H. pose proof (f_equal (@length _) (get_state_markers b filler)) as Hl.
  rewrite length_map in Hl. apply length_zero_iff_nil. rewrite Hl.
  clear Hl. induction H as [|row b Hrow _ IH]; [reflexivity|].
  cbn [concat]. rewrite List.filter_app, length_app, IH, Nat.add_0_r.
  clear IH. induction Hrow as [|c row -> _ IH]; [reflexivity|exact IH].
Qed.

(** X1: [generate_board(dim, filler)] has [dim] rows of [dim] cells that all
    hold [filler] (no rows at all for [dim <= 0]); generated with ["~"] it
    has no record to save, shows turn 1 and already satisfies
    [win_condition]. *)
Theorem generate_board_fresh :
  forall (dim : Z) (filler : string),
    length (generate_board dim filler) = Z.to_nat dim /\
    (forall i j,
       cell (generate_board dim filler) i j
       = if (i <? Z.to_nat dim)%nat && (j <? Z.to_nat dim)%nat
         then Some filler else None) /\
    get_state (generate_board dim "~") filler = [] /\
    get_turn (generate_board dim "~") ["@"; "X"] = 1 /\
    win_condition (generate_board dim "~") ["X"; "@"; "~"] = true.
Proof.
  intros dim filler. rewrite !generate_board_replicate.
  split; [apply length_replicate|]. split.
  - intros i j. unfold cell.
    destruct (i <? Z.to_nat dim)%nat eqn:Ei.
    + apply Nat.ltb_lt in Ei. rewrite lookup_replicate_2 by assumption. simpl.
      destruct (j <? Z.to_nat dim)%nat eqn:Ej.
      * apply Nat.ltb_lt in Ej. now rewrite lookup_replicate_2.
      * apply Nat.ltb_ge in Ej. now apply lookup_replicate_None.
    + apply Nat.ltb_ge in Ei.
      now rewrite (proj1 (lookup_replicate_None _ _ _) Ei).
  - assert (Hw : Forall (Forall (fun c => c = "~"))
                   (replicate (Z.to_nat dim) (replicate (Z.to_nat dim) "~"))).
    { apply Forall_replicate, Forall_replicate. reflexivity. }
    assert (Hc : Forall (fun c => c = "~")
                   (concat (replicate (Z.to_nat dim) (replicate (Z.to_nat dim) "~")))).
    { apply List.Forall_concat. exact Hw. }
    split; [now apply get_state_water|]. split.
    + unfold get_turn. induction Hc as [|c l -> _ IH]; [reflexivity|exact IH].
    + unfold win_condition. apply forallb_forall. intros c Hin.
      rewrite List.Forall_forall in Hc. now rewrite (Hc c Hin).
Qed.

(** ** The masked view *)

Lemma mask_board_cell b extra filler i j :
  cell (mask_board b extra filler) i j
  = (fun c => if str_in c ([filler] ++ extra) then c else filler) <$> cell b i j.
Proof.
  unfold cell, mask_board.
  change (map ?f ?l) with (f <$> l). rewrite list_lookup_fmap.
  destruct (b !! i) as [row|]; simpl; [|reflexivity].
  change (map ?f ?l) with (f <$> l). now rewrite list_lookup_fmap.
Qed.

Lemma mask_default_masked c :
  (if str_in c (["~"] ++ ["@"; "X"]) then c else "~") = masked c.
Proof.
  unfold masked, occupied, str_in. cbn [app existsb].
  destruct (String.eqb c "~") eqn:E1; [apply String.eqb_eq in E1; subst; reflexivity|].
  now destruct (String.eqb c "@"), (String.eqb c "X").
Qed.

Lemma masked_not_occupied c : occupied (masked c) = false.
Proof.
  unfold masked. destruct (occupied c) eqn:E; [reflexivity|exact E].
Qed.

Lemma masked_shot c only :
  only = ["@"; "X"] -> str_in (masked c) only = str_in c only.
Proof.
  intros ->. unfold masked, occupied, str_in. cbn [existsb].
  destruct (String.eqb c "@") eqn:E1;
    [cbn [orb negb]; cbv iota; now rewrite E1|].
  destruct (String.eqb c "X") eqn:E2;
    [cbn [orb negb]; cbv iota; now rewrite E1, E2|].
  destruct (String.eqb c "~") eqn:E3; cbn [orb negb]; cbv iota.
  - now rewrite E1, E2.
  - reflexivity.
Qed.

Lemma mask_board_map b :
  mask_board b ["@"; "X"] "~" = map (map masked) b.
Proof.
  unfold mask_board. apply map_ext. intros row. apply map_ext. intros c.
  apply mask_default_masked.
Qed.

(** X2: [mask_board], with its default arguments, keeps the rows and shows
    each cell as it is when it holds ["~"], ["@"] or ["X"] and as ["~"]
    when it holds anything else: no cell of the masked board holds a
    ship. *)
Theorem mask_board_hides_ships :
  forall (b : Board),
    length (mask_board b ["@"; "X"] "~") = length b /\
    (forall i j, cell (mask_board b ["@"; "X"] "~") i j = masked <$> cell b i j) /\
    (forall i j c, cell (mask_board b ["@"; "X"] "~") i j = Some c ->
                   occupied c = false) /\
    (forall i j c, cell b i j = Some c -> occupied c = false ->
                   cell (mask_board b ["@"; "X"] "~") i j = Some c) /\
    (forall i j c, cell b i j = Some c -> occupied c = true ->
                   cell (mask_board b ["@"; "X"] "~") i j = Some "~").
Proof.
  intros b.
  assert (Hcell : forall i j, cell (mask_board b ["@"; "X"] "~") i j
                              = masked <$> cell b i j).
  { intros i j. rewrite mask_board_cell.
    destruct (cell b i j) as [c|]; simpl; [|reflexivity].
    f_equal. apply mask_default_masked. }
  split; [unfold mask_board; apply length_map|].
  split; [exact Hcell|]. repeat split.
  - intros i j c H. rewrite Hcell in H.
    destruct (cell b i j) as [c0|]; [|discriminate].
    injection H as <-. apply masked_not_occupied.
  - intros i j c H Hocc. rewrite Hcell, H. simpl. unfold masked. now rewrite Hocc.
  - intros i j c H Hocc. rewrite Hcell, H. simpl. unfold masked. now rewrite Hocc.
Qed.

Lemma mask_board_hides_ships_witness :
  cell fleet_board 0 0 = Some "A" /\ occupied "A" = true /\
  cell (mask_board fleet_board ["@"; "X"] "~") 0 0 = Some "~".
Proof.
  split; [reflexivity|]. split; [reflexivity|].
  exact (proj2 (proj2 (proj2 (proj2 (mask_board_hides_ships fleet_board))))
           0%nat 0%nat "A" eq_refl eq_refl).
Defined.

(** X3: the masked board gives the same turn number as the board itself,
    always satisfies [win_condition], and masking it again changes
    nothing. *)
Theorem mask_board_keeps_score :
  forall (b : Board),
    get_turn (mask_board b ["@"; "X"] "~") ["@"; "X"] = get_turn b ["@"; "X"] /\
    win_condition (mask_board b ["@"; "X"] "~") ["X"; "@"; "~"] = true /\
    mask_board (mask_board b ["@"; "X"] "~") ["@"; "X"] "~"
    = mask_board b ["@"; "X"] "~".
Proof.
  intros b. rewrite !mask_board_map. repeat split.
  - unfold get_turn. rewrite <- concat_map, map_map. do 4 f_equal.
    apply map_ext. intros c. now apply masked_shot.
  - unfold win_condition. rewrite <- concat_map. apply forallb_forall.
    intros c Hc. apply in_map_iff in Hc as (c0 & <- & _).
    apply occupied_false. apply masked_not_occupied.
  - rewrite map_map. apply map_ext. intros row. rewrite map_map.
    apply map_ext. intros c. unfold masked at 1.
    now rewrite masked_not_occupied.
Qed.

(** ** The records of a board *)

Lemma in_enumerate_from {A} (l : list A) k i x :
  In (i, x) (enumerate_from k l) <-> k <= i /\ l !! Z.to_nat (i - k) = Some x.
Proof.
  revert k. induction l as [|y l IH]; intros k.
  - simpl. split; [tauto|]. intros [_ H]. discriminate.
  - cbn [enumerate_from In]. rewrite IH. split.
    + intros [[= <- <-]|[Hk Hl]].
      * split; [lia|]. now rewrite Z.sub_diag.
      * split; [lia|].
        replace (Z.to_nat (i - k)) with (S (Z.to_nat (i - (k + 1)))) by lia.
        exact Hl.
    + intros [Hk Hl]. destruct (Z.eq_dec i k) as [->|Hne].
      * left. rewrite Z.sub_diag in Hl. injection Hl as ->. reflexivity.
      * right. split; [lia|].
        replace (Z.to_nat (i - k)) with (S (Z.to_nat (i - (k + 1)))) in Hl by lia.
        exact Hl.
Qed.

Lemma NoDup_enumerate_from {A} (l : list A) k : NoDup (enumerate_from k l).
Proof.
  revert k. induction l as [|y l IH]; intros k; [constructor|].
  cbn [enumerate_from]. constructor; [|apply IH].
  rewrite list_elem_of_In, in_enumerate_from. lia.
Qed.

Lemma in_get_state g filler m r c :
  In (m, r, c) (get_state g filler)
  <-> 0 <= r /\ 0 <= c /\ cell g (Z.to_nat r) (Z.to_nat c) = Some m /\ m <> "~".
Proof.
  unfold get_state, enumerate, cell. rewrite in_flat_map. split.
  - intros ([ri row] & Hrow & H). apply in_flat_map in H as ([ci col] & Hcol & H).
    apply in_enumerate_from in Hrow as [Hri Hrow].
    apply in_enumerate_from in Hcol as [Hci Hcol].
    rewrite Z.sub_0_r in Hrow, Hcol.
    destruct (String.eqb col "~") eqn:E; [destruct H|].
    destruct H as [[= -> -> ->]|[]].
    split; [assumption|]. split; [assumption|]. rewrite Hrow. simpl.
    split; [assumption|]. now apply String.eqb_neq.
  - intros (Hr & Hc & Hcell & Hm).
    destruct (g !! Z.to_nat r) as [row|] eqn:Hrow; [|discriminate]. simpl in Hcell.
    exists (r, row). split.
    + apply in_enumerate_from. now rewrite Z.sub_0_r.
    + apply in_flat_map. exists (c, m). split.
      * apply in_enumerate_from. now rewrite Z.sub_0_r.
      * apply String.eqb_neq in Hm. rewrite Hm. now left.
Qed.

Lemma NoDup_get_state g filler : NoDup (get_state g filler).
Proof.
  unfold get_state. change (flat_map ?f ?l) with (l ≫= f).
  apply NoDup_bind.
  - intros [r1 row1] [r2 row2] [[m r] c] H1 H2 Hy1 Hy2.
    change (?l ≫= ?f) with (flat_map f l) in Hy1, Hy2.
    apply list_elem_of_In, in_flat_map in Hy1 as ([c1 col1] & _ & Hy1).
    apply list_elem_of_In, in_flat_map in Hy2 as ([c2 col2] & _ & Hy2).
    destruct (negb (String.eqb col1 "~")); [|destruct Hy1].
    destruct (negb (String.eqb col2 "~")); [|destruct Hy2].
    destruct Hy1 as [[= -> -> ->]|[]]. destruct Hy2 as [[= _ -> _]|[]].
    apply list_elem_of_In, in_enumerate_from in H1 as [_ H1].
    apply list_elem_of_In, in_enumerate_from in H2 as [_ H2].
    congruence.
  - intros [ri row] _. change (flat_map ?f ?l) with (l ≫= f).
    apply NoDup_bind.
    + intros [c1 col1] [c2 col2] y _ _ Hy1 Hy2.
      destruct (negb (String.eqb col1 "~")); [|now apply not_elem_of_nil in Hy1].
      destruct (negb (String.eqb col2 "~")); [|now apply not_elem_of_nil in Hy2].
      apply list_elem_of_singleton in Hy1, Hy2. congruence.
    + intros [ci col] _. destruct (negb (String.eqb col "~")).
      * apply NoDup_singleton.
      * apply NoDup_nil_2.
    + apply NoDup_enumerate_from.
  - apply NoDup_enumerate_from.
Qed.

(** X4: [get_state] emits the record [(m, r, c)] exactly for the cells
    [(r, c)] of the board that hold a marker [m] other than ["~"], each of
    them once, whatever [filler] it is given. *)
Theorem get_state_one_record_per_cell :
  forall (g : Board) (filler : string),
    (forall m r c,
       In (m, r, c) (get_state g filler)
       <-> 0 <= r /\ 0 <= c /\
           cell g (Z.to_nat r) (Z.to_nat c) = Some m /\ m <> "~") /\
    NoDup (get_state g filler) /\
    length (get_state g filler)
    = count_cells (fun c => negb (String.eqb c "~")) g.
Proof.
  intros g filler. split; [intros m r c; apply in_get_state|].
  split; [apply NoDup_get_state|].
  unfold count_cells. rewrite <- (get_state_markers g filler). now rewrite length_map.
Qed.

(** ** Loading onto a board of another filler *)

Lemma put_row_records_fill (filler : string) (ri : nat) (cs2 cs1 : list string)
    (B : Board) :
  (ri < 10)%nat -> (length cs1 + length cs2 <= 10)%nat ->
  B !! ri = Some (map (refill filler) cs1 ++ repeat filler (length cs2)) ->
  foldl put B
    (flat_map (fun '(ci, col) =>
       if negb (String.eqb col "~") then [(col, Z.of_nat ri, ci)] else [])
       (enumerate_from (Z.of_nat (length cs1)) cs2))
  = <[ri := map (refill filler) (cs1 ++ cs2)]> B.
Proof.
  intros Hri. revert cs1 B.
  induction cs2 as [|c cs2 IH]; intros cs1 B Hlen HB.
  - cbn [enumerate_from flat_map foldl]. symmetry. apply list_insert_id.
    now rewrite HB, !app_nil_r.
  - cbn [enumerate_from flat_map length repeat] in *.
    assert (Hk : Z.of_nat (length cs1) + 1 = Z.of_nat (length (cs1 ++ [c]))).
    { rewrite length_app. simpl. lia. }
    assert (Hlen' : (length (cs1 ++ [c]) + length cs2 <= 10)%nat).
    { rewrite length_app. simpl. lia. }
    assert (Hmid : forall x, (map (refill filler) cs1 ++ [x]) ++ repeat filler (length cs2)
                             = map (refill filler) cs1 ++ x :: repeat filler (length cs2))
      by (intros x; now rewrite <- app_assoc).
    rewrite Hk.
    destruct (String.eqb c "~") eqn:E; cbn [negb app].
    + rewrite (IH (cs1 ++ [c]) B Hlen').
      * now rewrite <- app_assoc.
      * rewrite map_app. cbn [map]. unfold refill at 2. rewrite E.
        now rewrite Hmid.
    + cbn [foldl].
      assert (Hput : put B (c, Z.of_nat ri, Z.of_nat (length cs1))
                     = <[ri := map (refill filler) (cs1 ++ [c])
                                ++ repeat filler (length cs2)]> B).
      { unfold put, marker. cbn [fst snd].
        rewrite !Z.mod_small by lia. rewrite !Nat2Z.id.
        rewrite (alter_as_insert _ _ _ _ HB). f_equal.
        rewrite insert_app_r_alt by (rewrite length_map; lia).
        rewrite length_map, Nat.sub_diag. cbn [insert list_insert].
        rewrite map_app. cbn [map]. unfold refill at 3. rewrite E.
        now rewrite Hmid. }
      rewrite Hput, (IH (cs1 ++ [c]) _ Hlen').
      * rewrite list_insert_insert_eq. now rewrite <- app_assoc.
      * apply list_lookup_insert_eq. eapply lookup_lt_Some. eassumption.
Qed.

Lemma put_board_records_fill (filler : string) (g2 g1 : Board) :
  (length g1 + length g2 <= 10)%nat ->
  Forall (fun row => length row = 10%nat) g2 ->
  foldl put (map (map (refill filler)) g1 ++ map (fun _ => repeat filler 10) g2)
    (flat_map (fun '(ri, row) =>
       flat_map (fun '(ci, col) =>
         if negb (String.eqb col "~") then [(col, ri, ci)] else [])
         (enumerate row))
       (enumerate_from (Z.of_nat (length g1)) g2))
  = map (map (refill filler)) (g1 ++ g2).
Proof.
  revert g1. induction g2 as [|row g2 IH]; intros g1 Hlen Hrows.
  - cbn [enumerate_from flat_map foldl map]. now rewrite !app_nil_r.
  - apply Forall_cons in Hrows as [Hrow Hrows].
    cbn [enumerate_from flat_map map length] in *. rewrite foldl_app.
    assert (Hk : Z.of_nat (length g1) + 1 = Z.of_nat (length (g1 ++ [row]))).
    { rewrite length_app. simpl. lia. }
    unfold enumerate at 1.
    rewrite (put_row_records_fill filler (length g1) row []).
    + rewrite insert_app_r_alt by (rewrite length_map; lia).
      rewrite length_map, Nat.sub_diag. cbn [insert list_insert app].
      rewrite Hk.
      replace (map (map (refill filler)) g1
               ++ map (refill filler) row :: map (fun _ => repeat filler 10) g2)
        with (map (map (refill filler)) (g1 ++ [row])
              ++ map (fun _ => repeat filler 10) g2)
        by (rewrite map_app; cbn [map]; now rewrite <- app_assoc).
      rewrite IH.
      * now rewrite <- app_assoc.
      * rewrite length_app. simpl. lia.
      * assumption.
    + lia.
    + simpl. lia.
    + rewrite list_lookup_middle by (now rewrite length_map). now rewrite Hrow.
Qed.

(** X5: [get_state] leaves out the cells that hold ["~"] and
    [io_load_board] starts from a board of [custom_filler]; so loading the
    records of a 10 x 10 board gives that board with every ["~"] replaced
    by [custom_filler]. *)
Theorem load_after_save_refills_water :
  forall (g : Board) (filler custom_filler : string), grid10 g ->
    (io_load_board (get_state g filler) custom_filler).1
    = Ok (map (map (refill custom_filler)) g).
Proof.
  intros g filler custom_filler Hg. unfold io_load_board.
  rewrite (set_state_result _ _ _ (grid10_generate custom_filler)).
  rewrite (get_state_subscripts_ok g filler Hg). f_equal.
  destruct Hg as [Hl Hr].
  replace (generate_board 10 custom_filler)
    with (map (map (refill custom_filler)) []
          ++ map (fun _ => repeat custom_filler 10) g).
  - unfold get_state. unfold enumerate at 2.
    apply (put_board_records_fill custom_filler g []); [simpl; lia|assumption].
  - do 11 (destruct g as [|? g]; try discriminate Hl). reflexivity.
Qed.

Lemma load_after_save_refills_water_witness :
  grid10 fleet_board /\
  (io_load_board (get_state fleet_board "~") "#").1
  = Ok (map (map (refill "#")) fleet_board).
Proof.
  assert (H : grid10 fleet_board).
  { split; [reflexivity|]. repeat constructor. }
  split; [exact H|].
  exact (load_after_save_refills_water fleet_board "~" "#" H).
Defined.

(** ** Placement, in full *)

Lemma board_set_shape b i j v b' :
  board_set b i j v = Some b' -> shape b' = shape b.
Proof.
  intros H. apply board_set_inv in H as (ri & ci & row & _ & Er & _ & _ & ->).
  unfold shape. change (map ?f ?l) with (f <$> l).
  rewrite list_fmap_insert, length_insert. apply list_insert_id.
  now rewrite list_lookup_fmap, Er.
Qed.

Lemma grid10_shape b : grid10 b <-> shape b = replicate 10 10%nat.
Proof.
  unfold grid10, shape. split.
  - intros [Hl Hr]. do 11 (destruct b as [|? b]; try discriminate Hl).
    cbn [map].
    repeat match goal with
           | H : Forall _ (_ :: _) |- _ => apply Forall_cons in H as [-> H]
           end.
    reflexivity.
  - intros H. split.
    + apply (f_equal (@length _)) in H. now rewrite length_map in H.
    + apply List.Forall_forall. intros row Hin.
      apply (in_map (@length _)) in Hin. rewrite H in Hin.
      simpl in Hin. intuition congruence.
Qed.

(** After a store, a subscript pair reads what it read before or what was
    stored. *)
Lemma board_get_after_set b i j v b' i' j' :
  board_set b i j v = Some b' ->
  board_get b' i' j' = board_get b i' j' \/
  (board_get b' i' j' = Some v /\ exists c, board_get b i' j' = Some c).
Proof.
  intros H. apply board_set_inv in H as (ri & ci & row & _ & Er & _ & Hci & ->).
  unfold board_get, getitem. rewrite length_insert.
  destruct (index (length b) i') as [ri'|]; [|now left]. simpl.
  destruct (decide (ri' = ri)) as [->|Hr].
  - rewrite list_lookup_insert_eq by (eapply lookup_lt_Some; eassumption).
    rewrite Er. simpl. rewrite length_insert.
    destruct (index (length row) j') as [ci'|] eqn:Ec; [|now left]. simpl.
    destruct (decide (ci' = ci)) as [->|Hc].
    + right. rewrite list_lookup_insert_eq by assumption. split; [reflexivity|].
      apply lookup_lt_is_Some_2 in Hci as [c Hc]. eauto.
    + left. now rewrite list_lookup_insert_ne by auto.
  - left. now rewrite list_lookup_insert_ne by auto.
Qed.

Lemma keeps_but_refl w b : keeps_but w b b.
Proof. intros i j c H _. exact H. Qed.

Lemma keeps_but_trans w b1 b2 b3 :
  keeps_but w b1 b2 -> keeps_but w b2 b3 -> keeps_but w b1 b3.
Proof. intros H12 H23 i j c H Hc. apply H23; [|assumption]. now apply H12. Qed.

(** The writing loop of [place_ship], over cells that hold water or the
    ship's own marker: it runs to its end and touches nothing else. *)
Lemma for_each_store_keeps (fi fj : Z -> Z) (w v : string) (xs : list Z) s :
  (forall k, In k xs ->
     board_get (cells s) (fi k) (fj k) = Some w \/
     board_get (cells s) (fi k) (fj k) = Some v) ->
  exists b',
    for_each (R := Empty_set) xs (fun k => store (fi k) (fj k) v ;;; ret None) s
    = (Ok None, mkStore b' (trace s ++ map (fun k => Wr (fi k) (fj k) v) xs)) /\
    keeps_but w (cells s) b' /\ shape b' = shape (cells s).
Proof.
  revert s. induction xs as [|x xs IH]; intros s Hxs.
  - exists (cells s). destruct s as [b t]. simpl. rewrite app_nil_r.
    split; [reflexivity|]. split; [apply keeps_but_refl|reflexivity].
  - assert (Hx : exists old, board_get (cells s) (fi x) (fj x) = Some old /\
                             (old = w \/ old = v)).
    { destruct (Hxs x (or_introl eq_refl)) as [H|H]; eauto. }
    destruct Hx as (old & Hold & Hwv).
    destruct (board_set_defined _ _ _ _ v Hold) as [b1 Hset].
    destruct (IH (mkStore b1 (trace s ++ [Wr (fi x) (fj x) v])))
      as (b' & Hrun & Hkeep & Hshape).
    { intros k Hk. cbn [cells].
      destruct (board_get_after_set _ _ _ _ _ (fi k) (fj k) Hset) as [E|[E _]].
      - rewrite E. apply Hxs. now right.
      - now right. }
    exists b'. split; [|split].
    + cbn [for_each]. unfold bind at 1. unfold bind at 1. unfold store at 1.
      rewrite Hset. unfold ret at 1. rewrite Hrun. cbn [trace map].
      now rewrite <- app_assoc.
    + eapply keeps_but_trans; [|exact Hkeep]. cbn [cells].
      destruct (board_set_cell _ _ _ _ _ _ Hold Hset) as (ri & ci & Hcell & Hnew).
      intros i j c Hc Hne. rewrite Hnew.
      destruct (decide (i = ri /\ j = ci)) as [[-> ->]|_]; [|assumption].
      rewrite Hcell in Hc. injection Hc as <-.
      destruct Hwv as [->| ->]; [contradiction|reflexivity].
    + cbn [cells] in Hshape. rewrite Hshape. eapply board_set_shape. eassumption.
Qed.

Lemma for_each_check_pass (fi fj : Z -> Z) (filler : string) (xs : list Z) s :
  (forall k, In k xs -> board_get (cells s) (fi k) (fj k) = Some filler) ->
  for_each xs (fun k =>
     c <~ load (fi k) (fj k);
     if negb (String.eqb c filler) then ret (Some false) else ret None) s
  = (Ok None, mkStore (cells s) (trace s ++ map (fun k => Rd (fi k) (fj k)) xs)).
Proof.
  revert s. induction xs as [|x xs IH]; intros s Hxs.
  - destruct s as [b t]. simpl. now rewrite app_nil_r.
  - cbn [for_each]. unfold bind at 1. unfold bind at 1. unfold load at 1.
    rewrite (Hxs x (or_introl eq_refl)), String.eqb_refl. cbn [negb].
    unfold ret at 1. rewrite IH.
    + cbn [cells trace map]. now rewrite <- app_assoc.
    + intros k Hk. cbn [cells]. apply Hxs. now right.
Qed.

Lemma for_each_check_raise (fi fj : Z -> Z) (filler : string) (xs : list Z) s e s' :
  for_each xs (fun k =>
     c <~ load (fi k) (fj k);
     if negb (String.eqb c filler) then ret (Some false) else ret None) s
  = (Raise e, s') -> e = IndexError.
Proof.
  revert s. induction xs as [|x xs IH]; intros s H; [discriminate|].
  cbn [for_each] in H. unfold bind at 1 in H. unfold bind at 1 in H.
  unfold load at 1 in H.
  destruct (board_get (cells s) (fi x) (fj x)) as [c|]; [|now injection H as <-].
  destruct (negb (String.eqb c filler)); [discriminate|].
  unfold ret at 1 in H. eapply IH. exact H.
Qed.

(** [validate_bounds] can only fail on a subscript. *)
Lemma validate_bounds_raise row col len orientation filler s e s' :
  validate_bounds row col len orientation filler s = (Raise e, s') ->
  e = IndexError.
Proof.
  unfold validate_bounds. intros H.
  destruct (String.eqb orientation "v" && (row + len <? 10)).
  - apply bind_inv in H as [(r & s1 & _ & H)|(e' & H & [= ->])].
    + destruct r; discriminate.
    + now apply (for_each_check_raise (fun k => row + k) (fun _ => col)) in H.
  - destruct (String.eqb orientation "h" && (col + len <? 10)).
    + apply bind_inv in H as [(r & s1 & _ & H)|(e' & H & [= ->])].
      * destruct r; discriminate.
      * now apply (for_each_check_raise (fun _ => row) (fun k => col + k)) in H.
    + destruct (negb _); [discriminate|]. destruct (_ || _); discriminate.
Qed.

Lemma validate_bounds_accepts row col len orientation filler s :
  (orientation = "v" /\ row + len < 10 /\
   forall k, In k (range len) -> board_get (cells s) (row + k) col = Some filler) \/
  (orientation = "h" /\ col + len < 10 /\
   forall k, In k (range len) -> board_get (cells s) row (col + k) = Some filler) ->
  exists t, validate_bounds row col len orientation filler s
            = (Ok true, mkStore (cells s) t).
Proof.
  unfold validate_bounds. intros [(-> & Hb & Hfree)|(-> & Hb & Hfree)].
  - change (String.eqb "v" "v") with true.
    replace (row + len <? 10) with true by lia. cbn [andb].
    unfold bind at 1.
    rewrite (for_each_check_pass (fun k => row + k) (fun _ => col) _ _ _ Hfree).
    eexists. reflexivity.
  - change (String.eqb "h" "v") with false. change (String.eqb "h" "h") with true.
    replace (col + len <? 10) with true by lia. cbn [andb].
    unfold bind at 1.
    rewrite (for_each_check_pass (fun _ => row) (fun k => col + k) _ _ _ Hfree).
    eexists. reflexivity.
Qed.

(** Every way in which a call of [place_ship] can end. *)
Lemma place_ship_cases row col ship orientation filler s r s' :
  place_ship row col ship orientation filler s = (r, s') ->
  (SHIPS_LEN !! ship = None /\ r = Raise KeyError /\ s' = s) \/
  (exists len,
     SHIPS_LEN !! ship = Some len /\
     (r = Raise IndexError \/ r = Ok (false, cells s)) /\
     validate_bounds row col len orientation "~" s = (match r with
                                                      | Ok _ => Ok false
                                                      | Raise e => Raise e
                                                      end, s')) \/
  (exists len,
     SHIPS_LEN !! ship = Some len /\
     r = Ok (true, cells s') /\
     keeps_but "~" (cells s) (cells s') /\ shape (cells s') = shape (cells s) /\
     ((orientation = "v" /\ row + len < 10 /\
       forall k, In k (range len) -> board_get (cells s) (row + k) col = Some "~") \/
      (orientation = "h" /\ col + len < 10 /\
       forall k, In k (range len) -> board_get (cells s) row (col + k) = Some "~"))).
Proof.
  intros H.
  apply place_ship_inv in H as [H|(len & Hlen & H)]; [now left|]. right.
  destruct H as [(e & Hv & ->)|[(Hv & ->)|(s1 & Hv & H)]].
  - left. exists len. split; [assumption|].
    pose proof (validate_bounds_raise _ _ _ _ _ _ _ _ Hv) as ->.
    split; [now left|exact Hv].
  - left. exists len. split; [assumption|].
    pose proof (quiet_validate_bounds _ _ _ _ _ _ _ _ Hv) as (-> & _).
    split; [now right|exact Hv].
  - right. exists len. split; [assumption|].
    pose proof (quiet_validate_bounds _ _ _ _ _ _ _ _ Hv) as (Hc1 & _).
    apply validate_bounds_true in Hv. rewrite <- Hc1.
    destruct Hv as [(-> & Hb & Hfree)|(-> & Hb & Hfree)].
    + change (String.eqb "v" "v") with true in H. cbv iota in H.
      destruct (for_each_store_keeps (fun k => row + k) (fun _ => col) "~" ship
                  (range len) s1) as (b' & Hrun & Hkeep & Hshape).
      { intros k Hk. left. rewrite Hc1. now apply Hfree. }
      unfold bind at 1 in H. rewrite Hrun in H.
      unfold bind, snapshot, ret in H. cbn [cells] in H. injection H as <- <-.
      cbn [cells]. split; [reflexivity|]. split; [exact Hkeep|].
      split; [exact Hshape|]. left. rewrite Hc1. auto.
    + change (String.eqb "h" "v") with false in H.
      change (String.eqb "h" "h") with true in H. cbv iota in H.
      destruct (for_each_store_keeps (fun _ => row) (fun k => col + k) "~" ship
                  (range len) s1) as (b' & Hrun & Hkeep & Hshape).
      { intros k Hk. left. rewrite Hc1. now apply Hfree. }
      unfold bind at 1 in H. rewrite Hrun in H.
      unfold bind, snapshot, ret in H. cbn [cells] in H. injection H as <- <-.
      cbn [cells]. split; [reflexivity|]. split; [exact Hkeep|].
      split; [exact Hshape|]. right. rewrite Hc1. auto.
Qed.

Lemma place_ship_succeeds row col ship len orientation filler s :
  SHIPS_LEN !! ship = Some len ->
  (orientation = "v" /\ row + len < 10 /\
   forall k, In k (range len) -> board_get (cells s) (row + k) col = Some "~") \/
  (orientation = "h" /\ col + len < 10 /\
   forall k, In k (range len) -> board_get (cells s) row (col + k) = Some "~") ->
  exists s', place_ship row col ship orientation filler s = (Ok (true, cells s'), s').
Proof.
  intros Hlen Hcond.
  destruct (validate_bounds_accepts row col len orientation "~" s Hcond) as [t Hv].
  unfold place_ship, ships_len. rewrite Hlen.
  unfold bind at 1. unfold ret at 1. unfold bind at 1. rewrite Hv.
  unfold bind at 1. unfold snapshot at 1. cbn [negb].
  destruct Hcond as [(-> & Hb & Hfree)|(-> & Hb & Hfree)].
  - change (String.eqb "v" "v") with true. cbv iota.
    destruct (for_each_store_keeps (fun k => row + k) (fun _ => col) "~" ship
                (range len) (mkStore (cells s) t)) as (b' & Hrun & _).
    { intros k Hk. left. now apply Hfree. }
    unfold bind at 1. rewrite Hrun. unfold bind, snapshot, ret. cbn [cells].
    eexists (mkStore b' _). reflexivity.
  - change (String.eqb "h" "v") with false. change (String.eqb "h" "h") with true.
    cbv iota.
    destruct (for_each_store_keeps (fun _ => row) (fun k => col + k) "~" ship
                (range len) (mkStore (cells s) t)) as (b' & Hrun & _).
    { intros k Hk. left. now apply Hfree. }
    unfold bind at 1. rewrite Hrun. unfold bind, snapshot, ret. cbn [cells].
    eexists (mkStore b' _). reflexivity.
Qed.

(** X6: [place_ship] reports success exactly when the ship is in
    [SHIPS_LEN], the orientation is ["v"] (or ["h"]), [row + length < 10]
    (or [col + length < 10]) and each of the [length] cells of the run
    reads ["~"]. *)
Theorem place_ship_accepts_iff :
  forall (row col : Z) (ship orientation filler : string) (s : Store),
    (exists b s', place_ship row col ship orientation filler s = (Ok (true, b), s'))
    <->
    exists len,
      SHIPS_LEN !! ship = Some len /\
      ((orientation = "v" /\ row + len < 10 /\
        forall k, 0 <= k < len -> board_get (cells s) (row + k) col = Some "~") \/
       (orientation = "h" /\ col + len < 10 /\
        forall k, 0 <= k < len -> board_get (cells s) row (col + k) = Some "~")).
Proof.
  intros row col ship orientation filler s. split.
  - intros (b & s' & H).
    apply place_ship_cases in H
      as [(_ & H & _)|[(len & _ & [H|H] & _)|(len & Hlen & _ & _ & _ & Hcond)]];
      try discriminate.
    exists len. split; [assumption|].
    destruct Hcond as [(Ho & Hb & Hfree)|(Ho & Hb & Hfree)]; [left|right];
      (split; [assumption|]); (split; [assumption|]);
      intros k Hk; now apply Hfree, in_range.
  - intros (len & Hlen & Hcond).
    destruct (place_ship_succeeds row col ship len orientation filler s Hlen) as [s' H].
    + destruct Hcond as [(Ho & Hb & Hfree)|(Ho & Hb & Hfree)]; [left|right];
        (split; [assumption|]); (split; [assumption|]);
        intros k Hk; now apply Hfree, in_range.
    + eauto.
Qed.

(** X7: however a call of [place_ship] ends, either it reports success
    and returns the board, or it has written nothing: it then returns
    [(False, board)] or raises [KeyError] or [IndexError] with the board
    unchanged.  The [ValueError] of its last branch is never raised. *)
Theorem place_ship_all_or_nothing :
  forall (row col : Z) (ship orientation filler : string) (s s' : Store)
         (r : result (bool * Board)),
    place_ship row col ship orientation filler s = (r, s') ->
    r = Ok (true, cells s') \/
    ((r = Ok (false, cells s) \/ r = Raise KeyError \/ r = Raise IndexError) /\
     cells s' = cells s /\
     exists evs, trace s' = trace s ++ evs /\
                 Forall (fun e => is_write e = false) evs).
Proof.
  intros row col ship orientation filler s s' r H.
  apply place_ship_cases in H
    as [(_ & -> & ->)|[(len & _ & Hr & Hv)|(len & _ & -> & _)]].
  - right. split; [auto|]. split; [reflexivity|].
    exists []. split; [now rewrite app_nil_r|constructor].
  - right. apply quiet_validate_bounds in Hv as (Hc & evs & Ht & Hf).
    split; [tauto|]. split; [assumption|]. eauto.
  - now left.
Qed.

Lemma place_ship_all_or_nothing_witness :
  place_ship 0 12 "P" "v" "~" (fresh fleet_board)
  = (Raise IndexError, mkStore fleet_board [Rd 0 12]) /\
  (Raise IndexError = Ok (true, cells (mkStore fleet_board [Rd 0 12])) \/
   ((@Raise (bool * Board) IndexError = Ok (false, cells (fresh fleet_board)) \/
     @Raise (bool * Board) IndexError = Raise KeyError \/
     @Raise (bool * Board) IndexError = Raise IndexError) /\
    cells (mkStore fleet_board [Rd 0 12]) = cells (fresh fleet_board) /\
    exists evs, trace (mkStore fleet_board [Rd 0 12])
                = trace (fresh fleet_board) ++ evs /\
                Forall (fun e => is_write e = false) evs)).
Proof.
  assert (H : place_ship 0 12 "P" "v" "~" (fresh fleet_board)
              = (Raise IndexError, mkStore fleet_board [Rd 0 12])).
  { vm_compute. reflexivity. }
  split; [exact H|].
  exact (place_ship_all_or_nothing 0 12 "P" "v" "~" _ _ _ H).
Defined.

(** X8: [place_ship] never overwrites: whatever its outcome, the rows keep
    their lengths and every cell that held something else than ["~"]
    holds it still. *)
Theorem place_ship_never_overwrites :
  forall (row col : Z) (ship orientation filler : string) (s s' : Store)
         (r : result (bool * Board)),
    place_ship row col ship orientation filler s = (r, s') ->
    shape (cells s') = shape (cells s) /\
    forall i j c, cell (cells s) i j = Some c -> c <> "~" ->
                  cell (cells s') i j = Some c.
Proof.
  intros row col ship orientation filler s s' r H.
  apply place_ship_cases in H
    as [(_ & _ & ->)|[(len & _ & _ & Hv)|(len & _ & _ & Hkeep & Hshape & _)]].
  - split; [reflexivity|]. intros i j c Hc _. exact Hc.
  - apply quiet_validate_bounds in Hv as (-> & _).
    split; [reflexivity|]. intros i j c Hc _. exact Hc.
  - split; [exact Hshape|exact Hkeep].
Qed.

Lemma place_ship_never_overwrites_witness :
  exists s' r,
    place_ship 4 0 "S" "h" "~" (fresh fleet_board) = (r, s') /\
    cell (cells (fresh fleet_board)) 4 0 = Some "A" /\
    shape (cells s') = shape (cells (fresh fleet_board)) /\
    cell (cells s') 4 0 = Some "A".
Proof.
  destruct (place_ship 4 0 "S" "h" "~" (fresh fleet_board)) as [r s'] eqn:E.
  exists s', r. split; [reflexivity|]. split; [reflexivity|].
  destruct (place_ship_never_overwrites 4 0 "S" "h" "~" _ _ _ E) as [Hs Hk].
  split; [exact Hs|]. apply Hk; [reflexivity|discriminate].
Defined.

(** ** Populating the board *)

Lemma board_get_grid10 b i j :
  grid10 b -> 0 <= i < 10 -> 0 <= j < 10 -> exists c, board_get b i j = Some c.
Proof.
  intros [Hl Hr] Hi Hj. rewrite board_get_cell by lia. unfold cell.
  assert (Hlt : (Z.to_nat i < length b)%nat) by lia.
  apply lookup_lt_is_Some_2 in Hlt as [row Hrow]. rewrite Hrow. simpl.
  apply lookup_lt_is_Some_2.
  rewrite (Forall_lookup_1 _ _ _ _ Hr Hrow). lia.
Qed.

Lemma for_each_check_total (fi fj : Z -> Z) (filler : string) (xs : list Z) s :
  (forall k, In k xs -> exists c, board_get (cells s) (fi k) (fj k) = Some c) ->
  exists r s',
    for_each xs (fun k =>
       c <~ load (fi k) (fj k);
       if negb (String.eqb c filler) then ret (Some false) else ret None) s
    = (Ok r, s').
Proof.
  revert s. induction xs as [|x xs IH]; intros s Hxs.
  - eexists. eexists. reflexivity.
  - cbn [for_each]. unfold bind at 1. unfold bind at 1. unfold load at 1.
    destruct (Hxs x (or_introl eq_refl)) as [c ->].
    destruct (negb (String.eqb c filler)).
    + eexists. eexists. reflexivity.
    + unfold ret at 1. apply IH. intros k Hk. cbn [cells]. apply Hxs. now right.
Qed.

(** On a 10 x 10 board, at a coordinate of the board, the check always
    gives an answer. *)
Lemma validate_bounds_total row col len orientation filler s :
  grid10 (cells s) -> 0 <= row < 10 -> 0 <= col < 10 ->
  exists b s', validate_bounds row col len orientation filler s = (Ok b, s').
Proof.
  intros Hg Hr Hc. unfold validate_bounds.
  destruct (String.eqb orientation "v" && (row + len <? 10)) eqn:Ev.
  - apply andb_prop in Ev as [_ Ev].
    destruct (for_each_check_total (fun k => row + k) (fun _ => col) filler
                (range len) s) as (r & s' & H).
    { intros k Hk. apply in_range in Hk. apply board_get_grid10; [assumption|lia|lia]. }
    unfold bind at 1. rewrite H. destruct r; eexists; eexists; reflexivity.
  - destruct (String.eqb orientation "h" && (col + len <? 10)) eqn:Eh.
    + apply andb_prop in Eh as [_ Eh].
      destruct (for_each_check_total (fun _ => row) (fun k => col + k) filler
                  (range len) s) as (r & s' & H).
      { intros k Hk. apply in_range in Hk. apply board_get_grid10; [assumption|lia|lia]. }
      unfold bind at 1. rewrite H. destruct r; eexists; eexists; reflexivity.
    + destruct (negb _); [eexists; eexists; reflexivity|].
      destruct (_ || _); eexists; eexists; reflexivity.
Qed.

Lemma catalog_length ship :
  In ship ["A"; "B"; "S"; "D"; "P"] -> exists len, SHIPS_LEN !! ship = Some len.
Proof.
  intros H. destruct (SHIPS_LEN !! ship) as [len|] eqn:E; [eauto|].
  apply ships_len_catalog in E. contradiction.
Qed.

(** One ship of [populate_board]: the loop that draws until the ship fits. *)
Lemma place_until_safe ship draws :
  forall s r s',
    place_until ship draws s = (r, s') ->
    (keeps_but "~" (cells s) (cells s') /\ shape (cells s') = shape (cells s)) /\
    (grid10 (cells s) -> In ship ["A"; "B"; "S"; "D"; "P"] ->
     Forall randint_draw draws ->
     exists o, r = Ok o /\ forall rest, o = Some rest -> Forall randint_draw rest).
Proof.
  induction draws as [|[[row col] orientation] draws IH]; intros s r s' H.
  - injection H as <- <-. split; [split; [apply keeps_but_refl|reflexivity]|].
    intros _ _ _. exists None. split; [reflexivity|discriminate].
  - cbn [place_until] in H.
    apply bind_inv in H as [(o & s0 & Ho & H)|(e & Ho & ->)].
    + assert (s0 = s) as ->.
      { destruct (orientation =? 1); [now injection Ho|].
        destruct (orientation =? 0); [now injection Ho|discriminate]. }
      apply bind_inv in H as [([placed b] & s1 & Hp & H)|(e & Hp & ->)].
      * pose proof Hp as Hcases. apply place_ship_cases in Hcases.
        assert (Hstep : keeps_but "~" (cells s) (cells s1) /\
                        shape (cells s1) = shape (cells s)).
        { destruct Hcases as [(_ & _ & ->)|[(len & _ & _ & Hv)|(len & _ & _ & Hk & Hs & _)]].
          - split; [apply keeps_but_refl|reflexivity].
          - apply quiet_validate_bounds in Hv as (-> & _).
            split; [apply keeps_but_refl|reflexivity].
          - split; assumption. }
        destruct placed.
        -- injection H as <- <-. split; [exact Hstep|].
           intros _ _ Hd. exists (Some draws). split; [reflexivity|].
           intros rest [= <-]. now apply Forall_cons in Hd as [_ Hd].
        -- apply IH in H as [[Hk Hs] Hsafe]. destruct Hstep as [Hk1 Hs1]. split.
           ++ split; [eapply keeps_but_trans; eassumption|congruence].
           ++ intros Hg Hship Hd. apply Forall_cons in Hd as [_ Hd].
              apply Hsafe; [|assumption|assumption].
              apply grid10_shape. rewrite Hs1. now apply grid10_shape.
      * pose proof Hp as Hcases. apply place_ship_cases in Hcases.
        destruct Hcases as [(Hnone & _ & ->)|[(len & _ & _ & Hv)|(len & _ & [=] & _)]].
        -- split; [split; [apply keeps_but_refl|reflexivity]|].
           intros _ Hship _. exfalso.
           destruct (catalog_length ship Hship) as [len Hlen]. congruence.
        -- pose proof (quiet_validate_bounds _ _ _ _ _ _ _ _ Hv) as (Hc & _).
           rewrite Hc. split; [split; [apply keeps_but_refl|reflexivity]|].
           intros Hg _ Hd. exfalso. apply Forall_cons in Hd as [(Hr & Hcol & _) _].
           cbn [fst snd] in Hr, Hcol.
           destruct (validate_bounds_total row col len o "~" s Hg) as (b & s2 & Hv');
             [lia|lia|]. congruence.
    + assert (s' = s) as ->.
      { destruct (orientation =? 1); [discriminate|].
        destruct (orientation =? 0); [discriminate|now injection Ho]. }
      split; [split; [apply keeps_but_refl|reflexivity]|].
      intros _ _ Hd. exfalso. apply Forall_cons in Hd as [(_ & _ & Ho') _].
      cbn [snd] in Ho'.
      destruct Ho' as [-> | ->]; discriminate.
Qed.

(** X9: on a 10 x 10 board, with ships of the catalog and draws as
    [randint(0, 9)] and [randint(0, 1)] deliver them, [populate_board]
    raises nothing; the board it was given is still 10 x 10 afterwards,
    every cell of it that was not water before is unchanged, and what is
    returned has the content of that board (after a rejected draw it is a
    copy of the outer list over the same rows, not the same object). *)
Theorem populate_board_safe :
  forall (ships : list string) (draws : list (Z * Z * Z)) (s s' : Store)
         (r : result (option Board)),
    populate_board ships draws s = (r, s') ->
    grid10 (cells s) ->
    Forall (fun ship => In ship ["A"; "B"; "S"; "D"; "P"]) ships ->
    Forall randint_draw draws ->
    (exists o, r = Ok o /\ forall b, o = Some b -> b = cells s') /\
    grid10 (cells s') /\
    forall i j c, cell (cells s) i j = Some c -> c <> "~" ->
                  cell (cells s') i j = Some c.
Proof.
  induction ships as [|ship ships IH]; intros draws s s' r H Hg Hships Hdraws.
  - injection H as <- <-. split; [|split; [assumption|]].
    + eexists. split; [reflexivity|]. now intros b [= <-].
    + intros i j c Hc _. exact Hc.
  - apply Forall_cons in Hships as [Hship Hships]. cbn [populate_board] in H.
    apply bind_inv in H as [(rest & s1 & H1 & H)|(e & H1 & ->)].
    + pose proof (place_until_safe _ _ _ _ _ H1) as [[Hk1 Hs1] Hsafe].
      destruct (Hsafe Hg Hship Hdraws) as (o & [= <-] & Hrest).
      assert (Hg1 : grid10 (cells s1)).
      { apply grid10_shape. rewrite Hs1. now apply grid10_shape. }
      destruct rest as [draws'|].
      * destruct (IH _ _ _ _ H Hg1 Hships (Hrest _ eq_refl)) as (Hr & Hg' & Hk).
        split; [exact Hr|]. split; [exact Hg'|].
        intros i j c Hc Hne. apply Hk; [|assumption]. now apply Hk1.
      * injection H as <- <-. split; [|split; [assumption|exact Hk1]].
        eexists. split; [reflexivity|]. discriminate.
    + pose proof (place_until_safe _ _ _ _ _ H1) as [_ Hsafe].
      destruct (Hsafe Hg Hship Hdraws) as (o & [=] & _).
Qed.

Lemma populate_board_safe_witness :
  grid10 (cells (fresh empty_board)) /\
  Forall (fun ship => In ship ["A"; "B"; "S"; "D"; "P"]) ["A"; "B"; "S"; "D"; "P"] /\
  Forall randint_draw fleet_draws /\
  exists s' r,
    populate_board ["A"; "B"; "S"; "D"; "P"] fleet_draws (fresh empty_board) = (r, s') /\
    (exists o, r = Ok o /\ forall b, o = Some b -> b = cells s') /\
    grid10 (cells s').
Proof.
  assert (Hg : grid10 (cells (fresh empty_board))).
  { split; [reflexivity|]. repeat constructor. }
  assert (Hs : Forall (fun ship => In ship ["A"; "B"; "S"; "D"; "P"])
                 ["A"; "B"; "S"; "D"; "P"]).
  { repeat (apply List.Forall_cons; [simpl; auto 10|]). apply List.Forall_nil. }
  assert (Hd : Forall randint_draw fleet_draws).
  { unfold fleet_draws.
    repeat (apply List.Forall_cons; [unfold randint_draw; simpl; lia|]).
    apply List.Forall_nil. }
  split; [exact Hg|]. split; [exact Hs|]. split; [exact Hd|].
  destruct (populate_board ["A"; "B"; "S"; "D"; "P"] fleet_draws (fresh empty_board))
    as [r s'] eqn:E.
  exists s', r. split; [reflexivity|].
  destruct (populate_board_safe _ _ _ _ _ E Hg Hs Hd) as (Hr & Hg' & _).
  split; assumption.
Defined.

(** ** Counting cells *)

Lemma count_cells_app P (b1 b2 : Board) :
  count_cells P (b1 ++ b2) = (count_cells P b1 + count_cells P b2)%nat.
Proof.
  unfold count_cells. now rewrite concat_app, List.filter_app, length_app.
Qed.

Lemma count_cells_cons P (row : list string) (b : Board) :
  count_cells P (row :: b) = (length (List.filter P row) + count_cells P b)%nat.
Proof.
  unfold count_cells. cbn [concat]. now rewrite List.filter_app, length_app.
Qed.

Lemma count_row_insert P (row : list string) ci old v :
  row !! ci = Some old ->
  (length (List.filter P (<[ci := v]> row)) + Nat.b2n (P old)
   = length (List.filter P row) + Nat.b2n (P v))%nat.
Proof.
  intros H. rewrite insert_take_drop by (eapply lookup_lt_Some; eassumption).
  rewrite <- (take_drop_middle row ci old H) at 3.
  rewrite !List.filter_app, !length_app. cbn [List.filter].
  destruct (P old), (P v); cbn [length Nat.b2n]; lia.
Qed.

Lemma count_cells_insert P (b : Board) ri ci row old v :
  b !! ri = Some row -> row !! ci = Some old ->
  (count_cells P (<[ri := <[ci := v]> row]> b) + Nat.b2n (P old)
   = count_cells P b + Nat.b2n (P v))%nat.
Proof.
  intros Hr Hc. rewrite insert_take_drop by (eapply lookup_lt_Some; eassumption).
  rewrite <- (take_drop_middle b ri row Hr) at 3.
  rewrite !count_cells_app, !count_cells_cons.
  pose proof (count_row_insert P row ci old v Hc). lia.
Qed.

(** A store changes the number of cells that satisfy [P] by what the new
    marker adds and the old one took. *)
Lemma count_cells_set P b i j old v b' :
  board_get b i j = Some old -> board_set b i j v = Some b' ->
  (count_cells P b' + Nat.b2n (P old) = count_cells P b + Nat.b2n (P v))%nat.
Proof.
  intros Hg Hs.
  apply board_get_inv in Hg as (ri & ci & row & Ei & Er & Ec & Hold).
  apply board_set_inv in Hs as (ri' & ci' & row' & Ei' & Er' & Ec' & _ & ->).
  assert (ri' = ri) as -> by congruence.
  assert (row' = row) as -> by congruence.
  assert (ci' = ci) as -> by congruence.
  now apply count_cells_insert.
Qed.

Lemma get_turn_count b only :
  get_turn b only = Z.of_nat (count_cells (fun e => str_in e only) b) + 1.
Proof.
  unfold get_turn, count_cells. f_equal.
  induction (concat b) as [|c l IH]; [reflexivity|].
  cbn [map List.filter]. destruct (str_in c only); cbn [map foldr length].
  - rewrite IH. unfold Z.b2z. lia.
  - exact IH.
Qed.

(** The writing loop over distinct water cells turns exactly that many
    cells from [w] into [v]. *)
Lemma for_each_store_count P (fi fj : Z -> Z) (w v : string) (xs : list Z) :
  forall s r s',
    (forall k, In k xs ->
       0 <= fi k /\ 0 <= fj k /\ board_get (cells s) (fi k) (fj k) = Some w) ->
    NoDup (map (fun k => (Z.to_nat (fi k), Z.to_nat (fj k))) xs) ->
    for_each (R := Empty_set) xs (fun k => store (fi k) (fj k) v ;;; ret None) s
    = (r, s') ->
    (count_cells P (cells s') + length xs * Nat.b2n (P w)
     = count_cells P (cells s) + length xs * Nat.b2n (P v))%nat.
Proof.
  induction xs as [|x xs IH]; intros s r s' Hxs Hnd H.
  - injection H as _ <-. reflexivity.
  - destruct (Hxs x (or_introl eq_refl)) as (Hi & Hj & Hw).
    cbn [map] in Hnd. apply NoDup_cons in Hnd as [Hnotin Hnd].
    destruct (board_set_defined _ _ _ _ v Hw) as [b1 Hset].
    pose proof (count_cells_set P _ _ _ _ _ _ Hw Hset) as Hcount.
    cbn [for_each] in H. unfold bind at 1 in H. unfold bind at 1 in H.
    unfold store at 1 in H. rewrite Hset in H. unfold ret at 1 in H.
    apply IH in H; [cbn [cells length] in *; lia| |assumption].
    intros k Hk. destruct (Hxs k (or_intror Hk)) as (Hi' & Hj' & Hw').
    split; [assumption|]. split; [assumption|]. cbn [cells].
    rewrite (board_set_paint _ _ _ _ v Hi Hj Hw) in Hset. injection Hset as <-.
    rewrite board_get_cell in Hw' |- * by assumption.
    rewrite cell_paint, Hw'. simpl.
    rewrite bool_decide_eq_false_2; [reflexivity|].
    intros E. apply Hnotin. rewrite <- E.
    apply list_elem_of_In, in_map_iff. exists k. split; [reflexivity|assumption].
Qed.

(** A successful [place_ship] adds [SHIPS_LEN[ship]] cells of the ship's
    marker, all taken from water. *)
Lemma place_ship_count P row col ship orientation filler s b s' :
  place_ship row col ship orientation filler s = (Ok (true, b), s') ->
  0 <= row -> 0 <= col ->
  exists len,
    SHIPS_LEN !! ship = Some len /\
    (count_cells P (cells s') + Z.to_nat len * Nat.b2n (P "~")
     = count_cells P (cells s) + Z.to_nat len * Nat.b2n (P ship))%nat.
Proof.
  intros H Hrow Hcol.
  apply place_ship_inv in H as [(_ & H & _)|(len & Hlen & H)]; [discriminate|].
  destruct H as [(e & _ & H)|[(_ & H)|(s1 & Hv & H)]]; try discriminate.
  exists len. split; [assumption|].
  pose proof (quiet_validate_bounds _ _ _ _ _ _ _ _ Hv) as (Hc1 & _).
  pose proof (run_cells_NoDup row col len orientation Hrow Hcol) as Hnd.
  apply validate_bounds_true in Hv. rewrite <- Hc1, <- (length_range len).
  destruct Hv as [(-> & Hb & Hfree)|(-> & Hb & Hfree)].
  - change (String.eqb "v" "v") with true in H. cbv iota in H.
    apply bind_inv in H as [(o & s2 & Hrun & H)|(e & _ & [=])].
    unfold bind, snapshot, ret in H. injection H as _ <-.
    eapply (for_each_store_count P (fun k => row + k) (fun _ => col));
      [|exact Hnd|exact Hrun].
    intros k Hk. pose proof (proj1 (in_range _ _) Hk).
    split; [lia|]. split; [lia|]. rewrite Hc1. now apply Hfree.
  - change (String.eqb "h" "v") with false in H.
    change (String.eqb "h" "h") with true in H. cbv iota in H.
    apply bind_inv in H as [(o & s2 & Hrun & H)|(e & _ & [=])].
    unfold bind, snapshot, ret in H. injection H as _ <-.
    eapply (for_each_store_count P (fun _ => row) (fun k => col + k));
      [|exact Hnd|exact Hrun].
    intros k Hk. pose proof (proj1 (in_range _ _) Hk).
    split; [lia|]. split; [lia|]. rewrite Hc1. now apply Hfree.
Qed.

Lemma place_until_count P ship draws :
  forall s rest s',
    place_until ship draws s = (Ok (Some rest), s') ->
    Forall randint_draw draws ->
    Forall randint_draw rest /\
    exists len,
      SHIPS_LEN !! ship = Some len /\
      (count_cells P (cells s') + Z.to_nat len * Nat.b2n (P "~")
       = count_cells P (cells s) + Z.to_nat len * Nat.b2n (P ship))%nat.
Proof.
  induction draws as [|[[row col] orientation] draws IH]; intros s rest s' H Hd.
  - discriminate.
  - apply Forall_cons in Hd as [(Hr & Hc & _) Hd]. cbn [fst snd] in Hr, Hc.
    cbn [place_until] in H.
    apply bind_inv in H as [(o & s0 & Ho & H)|(e & _ & [=])].
    assert (s0 = s) as ->.
    { destruct (orientation =? 1); [now injection Ho|].
      destruct (orientation =? 0); [now injection Ho|discriminate]. }
    apply bind_inv in H as [([placed b] & s1 & Hp & H)|(e & _ & [=])].
    destruct placed.
    + injection H as <- <-. split; [assumption|].
      apply (place_ship_count P) in Hp; [exact Hp|lia|lia].
    + apply place_ship_cases in Hp
        as [(_ & [=] & _)|[(len & _ & _ & Hv)|(len & _ & [=] & _)]].
      apply quiet_validate_bounds in Hv as (Hc1 & _).
      rewrite <- Hc1. now apply IH.
Qed.

Lemma populate_board_count m ships :
  m <> "~" ->
  forall draws s b s',
    populate_board ships draws s = (Ok (Some b), s') ->
    NoDup ships -> Forall randint_draw draws ->
    b = cells s' /\
    count_cells (String.eqb m) (cells s')
    = (count_cells (String.eqb m) (cells s)
       + if bool_decide (m ∈ ships) then Z.to_nat (default 0%Z (SHIPS_LEN !! m)) else 0)%nat.
Proof.
  intros Hm. apply String.eqb_neq in Hm.
  induction ships as [|ship ships IH]; intros draws s b s' H Hnd Hd.
  - injection H as <- <-. split; [reflexivity|].
    rewrite bool_decide_eq_false_2 by apply not_elem_of_nil. lia.
  - apply NoDup_cons in Hnd as [Hnotin Hnd]. cbn [populate_board] in H.
    apply bind_inv in H as [(rest & s1 & H1 & H)|(e & _ & [=])].
    destruct rest as [draws'|]; [|discriminate].
    destruct (place_until_count (String.eqb m) _ _ _ _ _ H1 Hd)
      as (Hd' & len & Hlen & Hcount).
    destruct (IH _ _ _ _ H Hnd Hd') as [-> Hrest]. split; [reflexivity|].
    rewrite Hrest. rewrite Hm in Hcount. cbn [Nat.b2n] in Hcount.
    destruct (String.eqb m ship) eqn:E.
    + apply String.eqb_eq in E. subst ship.
      rewrite (bool_decide_eq_false_2 _ Hnotin).
      rewrite bool_decide_eq_true_2 by apply list_elem_of_here.
      rewrite Hlen. cbn [default from_option id Nat.b2n] in *. lia.
    + apply String.eqb_neq in E.
      rewrite (bool_decide_ext (m ∈ ship :: ships) (m ∈ ships))
        by (rewrite elem_of_cons; tauto).
      cbn [Nat.b2n] in Hcount. lia.
Qed.

(** X10: when [populate_board] has placed a list of distinct ships, the
    number of cells holding a marker [m] other than ["~"] has grown by
    [SHIPS_LEN[m]] if [m] is one of the ships and is unchanged
    otherwise. *)
Theorem populate_board_fleet :
  forall (ships : list string) (draws : list (Z * Z * Z)) (s s' : Store)
         (b : Board) (m : string),
    populate_board ships draws s = (Ok (Some b), s') ->
    NoDup ships -> Forall randint_draw draws -> m <> "~" ->
    count_cells (String.eqb m) b
    = (count_cells (String.eqb m) (cells s)
       + if bool_decide (m ∈ ships) then Z.to_nat (default 0%Z (SHIPS_LEN !! m)) else 0)%nat.
Proof.
  intros ships draws s s' b m H Hnd Hd Hm.
  destruct (populate_board_count m ships Hm draws s b s' H Hnd Hd) as [-> Hc].
  exact Hc.
Qed.

Lemma populate_board_fleet_witness :
  populate_board ["A"; "B"; "S"; "D"; "P"] fleet_draws (fresh empty_board)
  = (Ok (Some fleet_board), (populate_board ["A"; "B"; "S"; "D"; "P"] fleet_draws
                               (fresh empty_board)).2) /\
  NoDup ["A"; "B"; "S"; "D"; "P"] /\ Forall randint_draw fleet_draws /\ "B" <> "~" /\
  count_cells (String.eqb "B") fleet_board = 4%nat.
Proof.
  assert (H : populate_board ["A"; "B"; "S"; "D"; "P"] fleet_draws (fresh empty_board)
              = (Ok (Some fleet_board),
                 (populate_board ["A"; "B"; "S"; "D"; "P"] fleet_draws
                    (fresh empty_board)).2)).
  { vm_compute. reflexivity. }
  assert (Hnd : NoDup ["A"; "B"; "S"; "D"; "P"]).
  { apply (bool_decide_unpack _). vm_compute. exact I. }
  assert (Hd : Forall randint_draw fleet_draws).
  { unfold fleet_draws.
    repeat (apply List.Forall_cons; [unfold randint_draw; simpl; lia|]).
    apply List.Forall_nil. }
  assert (Hm : "B" <> "~") by discriminate.
  split; [exact H|]. split; [exact Hnd|]. split; [exact Hd|]. split; [exact Hm|].
  exact (populate_board_fleet _ _ _ _ _ "B" H Hnd Hd Hm).
Defined.

(** ** One turn of the loop *)

Lemma digits_answer x :
  str_in x digits = true ->
  exists d, 0 <= d < 10 /\ x = str_digit d /\ int_digit x = Some d.
Proof.
  intros H. apply str_in_In in H. unfold digits in H. apply in_map_iff in H
    as (d & <- & Hd). apply in_range in Hd.
  exists d. split; [assumption|]. split; [reflexivity|].
  now apply digit_answer.
Qed.

(** [game_loop] with fewer than two answers left. *)
Lemma game_loop_short inputs cheats radar filler turns s r s' :
  (length inputs < 2)%nat ->
  game_loop inputs cheats radar filler turns s = (r, s') ->
  s' = s /\
  (r = Ok WinScreen \/ r = Ok OutOfAmmo \/ r = Raise EOFError \/
   r = Ok (SavedToMenu (get_state (cells s) "~"))).
Proof.
  intros Hlen H.
  destruct inputs as [|x [|y rest]]; [| |simpl in Hlen; lia];
    cbn [game_loop] in H; unfold bind, snapshot in H;
    (destruct (win_condition _ _); [injection H as <- <-; auto|]);
    (destruct (_ =? turns); [injection H as <- <-; auto|]).
  - injection H as <- <-. auto.
  - destruct (io_validate_input x digits) as [vr _r].
    destruct (String.eqb _r "m"); injection H as <- <-; auto 6.
Qed.

(** [game_loop] with two answers to read: it ends at the top, or saves, or
    makes one [turn] and calls itself with the defaults. *)
Lemma game_loop_unfold line_r line_c rest cheats radar filler turns s r s' :
  game_loop (line_r :: line_c :: rest) cheats radar filler turns s = (r, s') ->
  (win_condition (cells s) ["X"; "@"; "~"] = true /\ r = Ok WinScreen /\ s' = s) \/
  (win_condition (cells s) ["X"; "@"; "~"] = false /\
   get_turn (cells s) ["@"; "X"] = turns /\ r = Ok OutOfAmmo /\ s' = s) \/
  (win_condition (cells s) ["X"; "@"; "~"] = false /\
   get_turn (cells s) ["@"; "X"] <> turns /\
   (line_r = "m" \/ line_c = "m") /\
   r = Ok (SavedToMenu (get_state (cells s) "~")) /\ s' = s) \/
  (win_condition (cells s) ["X"; "@"; "~"] = false /\
   get_turn (cells s) ["@"; "X"] <> turns /\
   line_r <> "m" /\ line_c <> "m" /\
   exists res s1,
     turn radar filler line_r line_c s res s1 /\
     match res with
     | Ok _ => game_loop rest cheats radar "~" 20 s1 = (r, s')
     | Raise e => r = Raise e /\ s' = s1
     end).
Proof.
  intros H. cbn [game_loop] in H. unfold bind at 1 in H. unfold snapshot at 1 in H.
  destruct (win_condition (cells s) _) eqn:Hwin;
    [injection H as <- <-; now left|]. right.
  destruct (get_turn (cells s) _ =? turns) eqn:Hturn;
    [apply Z.eqb_eq in Hturn; injection H as <- <-; now left|]. right.
  apply Z.eqb_neq in Hturn.
  unfold io_validate_input in H.
  assert (Hr : (if str_in line_r digits then (true, line_r) else (false, line_r))
               = (str_in line_r digits, line_r)) by now destruct (str_in line_r digits).
  assert (Hc : (if str_in line_c digits then (true, line_c) else (false, line_c))
               = (str_in line_c digits, line_c)) by now destruct (str_in line_c digits).
  rewrite Hr in H.
  destruct (String.eqb line_r "m") eqn:Emr.
  { apply String.eqb_eq in Emr. injection H as <- <-. left. auto. }
  rewrite Hc in H.
  destruct (String.eqb line_c "m") eqn:Emc.
  { apply String.eqb_eq in Emc. injection H as <- <-. left. auto. }
  right. apply String.eqb_neq in Emr, Emc.
  split; [reflexivity|]. do 3 (split; [assumption|]).
  destruct (str_in line_r digits && str_in line_c digits) eqn:Evalid.
  - apply andb_prop in Evalid as [Vr Vc].
    destruct (digits_answer _ Vr) as (rr & Hrr & Er & Ir).
    destruct (digits_answer _ Vc) as (cc & Hcc & Ec & Ic).
    rewrite Ir, Ic in H. unfold bind at 1 in H. unfold load at 1 in H.
    destruct (board_get (cells s) rr cc) as [hit_miss|] eqn:Eg.
    + destruct (String.eqb hit_miss "@" || String.eqb hit_miss "X") eqn:Eshot.
      * exists (Ok tt). eexists. split.
        -- apply (turn_repeat _ _ _ _ _ rr cc hit_miss); try assumption.
           apply orb_prop in Eshot as [E|E]; apply String.eqb_eq in E; auto.
        -- unfold bind at 1 in H. unfold emit at 1 in H. cbn [cells trace] in H.
           rewrite <- app_assoc in H. exact H.
      * apply orb_false_iff in Eshot as [E1 E2]. rewrite E1 in H.
        cbn [negb] in H. rewrite andb_true_r in H.
        apply String.eqb_neq in E1, E2.
        assert (Hshot : (store rr cc (if String.eqb hit_miss filler then "@" else "X") ;;;
                         radar_hint radar rr cc ;;;
                         game_loop rest cheats radar "~" 20)
                          (mkStore (cells s) (trace s ++ [Rd rr cc])) = (r, s')).
        { destruct (String.eqb hit_miss filler); exact H. }
        clear H.
        destruct (board_set_defined _ _ _ _
                    (if String.eqb hit_miss filler then "@" else "X") Eg) as [b' Hset].
        unfold bind at 1 in Hshot. unfold store at 1 in Hshot.
        cbn [cells trace] in Hshot. rewrite Hset in Hshot.
        rewrite <- app_assoc in Hshot. cbn [app] in Hshot.
        unfold bind at 1 in Hshot.
        destruct (radar_hint radar rr cc _) as [res s1] eqn:Ehint.
        exists res, s1. split.
        -- eapply (turn_shot _ _ _ _ _ rr cc hit_miss b'); eassumption.
        -- destruct res as [[]|e]; [exact Hshot|].
           now injection Hshot as <- <-.
    + exists (Raise IndexError). eexists. split.
      * now apply (turn_off_board _ _ _ _ _ rr cc).
      * now injection H as <- <-.
  - exists (Ok tt). eexists. split; [now apply turn_invalid|].
    unfold bind at 1 in H. unfold emit at 1 in H. exact H.
Qed.

Lemma turn_extends_trace radar filler line_r line_c s res s1 :
  turn radar filler line_r line_c s res s1 ->
  exists evs, trace s1 = trace s ++ evs.
Proof.
  intros Hturn.
  destruct Hturn as [Hbad|r c _ _ _ _ _|r c v _ _ _ _ _ _
                    |r c v b' res s1 _ _ _ _ _ _ _ _ Hhint];
    try (eexists; reflexivity).
  apply quiet_radar_hint in Hhint as (_ & evs & Ht & _). cbn [trace] in Ht.
  exists ([Rd r c; Wr r c (if String.eqb v filler then "@" else "X")] ++ evs).
  now rewrite Ht, <- app_assoc.
Qed.

(** A run of [game_loop] only adds to the log of accesses and messages. *)
Lemma game_loop_extends_trace inputs :
  forall cheats radar filler turns s r s',
    game_loop inputs cheats radar filler turns s = (r, s') ->
    exists evs, trace s' = trace s ++ evs.
Proof.
  induction inputs as [|x|x y rest IH] using list_pair_ind;
    intros cheats radar filler turns s r s' H.
  - apply game_loop_short in H as [-> _]; [|simpl; lia].
    exists []. now rewrite app_nil_r.
  - apply game_loop_short in H as [-> _]; [|simpl; lia].
    exists []. now rewrite app_nil_r.
  - apply game_loop_unfold in H
      as [(_ & _ & ->)|[(_ & _ & _ & ->)|[(_ & _ & _ & _ & ->)
         |(_ & _ & _ & _ & res & s1 & Hturn & H)]]];
      try (exists []; now rewrite app_nil_r).
    apply turn_extends_trace in Hturn as [evs1 Ht1].
    destruct res as [[]|e].
    + apply IH in H as [evs2 Ht2]. exists (evs1 ++ evs2).
      now rewrite Ht2, Ht1, <- app_assoc.
    + destruct H as [_ ->]. eauto.
Qed.

(** [game_loop] when the answers are used up. *)
Lemma game_loop_no_answer cheats radar filler turns s :
  win_condition (cells s) ["X"; "@"; "~"] = false ->
  game_loop [] cheats radar filler turns s
  = (if get_turn (cells s) ["@"; "X"] =? turns then Ok OutOfAmmo else Raise EOFError, s).
Proof.
  intros Hwin. cbn [game_loop]. unfold bind, snapshot. rewrite Hwin.
  now destruct (get_turn (cells s) ["@"; "X"] =? turns).
Qed.



(** The repeated shot of the witness, as the run it is. *)
Lemma repeat_shot_on_missed_board :
  game_loop ["6"; "0"] false false "~" 20 (fresh missed_board)
  = (Raise EOFError,
     mkStore missed_board [Rd 6 0; Msg "You have already targeted this area"]).
Proof. vm_compute. reflexivity. Qed.

(** X11: a shot at a cell that holds neither ["@"] nor ["X"] writes ["@"]
    there if the cell held ["~"] and ["X"] otherwise, leaves every other
    cell alone, raises the turn number by one, and goes on with the radar
    hint and the next turn. *)
Theorem game_loop_fresh_shot :
  forall (r c : Z) (rest : list string) (cheats radar : bool) (turns : Z)
         (s : Store) (v : string),
    0 <= r < 10 -> 0 <= c < 10 ->
    win_condition (cells s) ["X"; "@"; "~"] = false ->
    get_turn (cells s) ["@"; "X"] <> turns ->
    board_get (cells s) r c = Some v -> v <> "@" -> v <> "X" ->
    let mark := if String.eqb v "~" then "@" else "X" in
    let b' := paint (fun i j => bool_decide ((i, j) = (Z.to_nat r, Z.to_nat c)))
                    mark (cells s) in
    game_loop (str_digit r :: str_digit c :: rest) cheats radar "~" turns s
    = (radar_hint radar r c ;;; game_loop rest cheats radar "~" 20)
        (mkStore b' (trace s ++ [Rd r c; Wr r c mark])) /\
    get_turn b' ["@"; "X"] = get_turn (cells s) ["@"; "X"] + 1.
Proof.
  intros r c rest cheats radar turns s v Hr Hc Hwin Hturn Hv H1 H2 mark b'.
  destruct (digit_answer r Hr) as (Vr & Mr & Ir).
  destruct (digit_answer c Hc) as (Vc & Mc & Ic).
  assert (Hset : board_set (cells s) r c mark = Some b').
  { apply (board_set_paint _ _ _ v); [lia|lia|assumption]. }
  split.
  - cbn [game_loop]. unfold bind at 1. unfold snapshot at 1.
    rewrite Hwin. apply Z.eqb_neq in Hturn. rewrite Hturn.
    rewrite Vr, Mr, Vc, Mc, Ir, Ic. cbn [andb].
    unfold bind at 1. unfold load at 1. rewrite Hv.
    apply String.eqb_neq in H1, H2. rewrite H1, H2. cbn [orb negb].
    rewrite andb_true_r. subst mark.
    destruct (String.eqb v "~"); cbn [negb]; cbv iota;
      unfold bind at 1; unfold store at 1; cbn [cells trace];
      rewrite Hset; now rewrite <- app_assoc.
  - rewrite !get_turn_count.
    pose proof (count_cells_set (fun e => str_in e ["@"; "X"]) _ _ _ _ _ _ Hv Hset) as Hn.
    assert (Pv : str_in v ["@"; "X"] = false).
    { unfold str_in. cbn [existsb]. apply String.eqb_neq in H1, H2.
      now rewrite H1, H2. }
    assert (Pm : str_in mark ["@"; "X"] = true).
    { subst mark. now destruct (String.eqb v "~"). }
    cbv beta in Hn. rewrite Pv, Pm in Hn. cbn [Nat.b2n] in Hn. lia.
Qed.

Lemma game_loop_fresh_shot_witness :
  game_loop (str_digit 0 :: str_digit 0 :: []) false false "~" 20 (fresh fleet_board)
  = (radar_hint false 0 0 ;;; game_loop [] false false "~" 20)
      (mkStore (paint (fun i j => bool_decide ((i, j) = (Z.to_nat 0, Z.to_nat 0)))
                      "X" fleet_board)
               (trace (fresh fleet_board) ++ [Rd 0 0; Wr 0 0 "X"])) /\
  get_turn (paint (fun i j => bool_decide ((i, j) = (Z.to_nat 0, Z.to_nat 0)))
                  "X" fleet_board) ["@"; "X"]
  = get_turn fleet_board ["@"; "X"] + 1.
Proof.
  apply (game_loop_fresh_shot 0 0 [] false false 20 (fresh fleet_board) "A").
  - lia.
  - lia.
  - reflexivity.
  - vm_compute. discriminate.
  - reflexivity.
  - discriminate.
  - discriminate.
Defined.

(** X12: when one of the two answers is not one of ["0"] ... ["9"] (and
    neither is ["m"]), both answers are used up, the board is untouched,
    "Sorry, incorrect input" is shown and the loop goes on: the log of
    every such run goes on, from where it stood, with that message, and
    when these were the last two answers the run ends with the board as it
    was and exactly that message logged. *)
Theorem game_loop_invalid_input :
  forall (line_r line_c : string) (rest : list string) (cheats radar : bool)
         (filler : string) (turns : Z) (s : Store),
    win_condition (cells s) ["X"; "@"; "~"] = false ->
    get_turn (cells s) ["@"; "X"] <> turns ->
    line_r <> "m" -> line_c <> "m" ->
    ~ (In line_r digits /\ In line_c digits) ->
    game_loop (line_r :: line_c :: rest) cheats radar filler turns s
    = game_loop rest cheats radar "~" 20
        (mkStore (cells s) (trace s ++ [Msg "Sorry, incorrect input"])) /\
    (forall out s',
       game_loop (line_r :: line_c :: rest) cheats radar filler turns s = (out, s') ->
       exists evs, trace s' = trace s ++ [Msg "Sorry, incorrect input"] ++ evs) /\
    game_loop [line_r; line_c] cheats radar filler turns s
    = (if get_turn (cells s) ["@"; "X"] =? 20 then Ok OutOfAmmo else Raise EOFError,
       mkStore (cells s) (trace s ++ [Msg "Sorry, incorrect input"])).
Proof.
  intros line_r line_c rest cheats radar filler turns s Hwin Hturn Hr Hc Hbad.
  assert (Hstep : forall rest',
             game_loop (line_r :: line_c :: rest') cheats radar filler turns s
             = game_loop rest' cheats radar "~" 20
                 (mkStore (cells s) (trace s ++ [Msg "Sorry, incorrect input"]))).
  { intros rest'. cbn [game_loop]. unfold bind at 1. unfold snapshot at 1.
    rewrite Hwin. apply Z.eqb_neq in Hturn. rewrite Hturn.
    unfold io_validate_input.
    apply String.eqb_neq in Hr, Hc.
    assert (Hv : str_in line_r digits && str_in line_c digits = false).
    { apply not_true_is_false. intros E. apply andb_prop in E as [E1 E2].
      apply Hbad. split; now apply str_in_In. }
    destruct (str_in line_r digits); rewrite Hr;
      destruct (str_in line_c digits); rewrite Hc; try discriminate Hv;
      reflexivity. }
  split; [apply Hstep|]. split.
  - intros out s' H. rewrite Hstep in H.
    apply game_loop_extends_trace in H as [evs Ht]. cbn [trace] in Ht.
    exists evs. now rewrite Ht, <- app_assoc.
  - rewrite Hstep.
    exact (game_loop_no_answer cheats radar "~" 20
             (mkStore (cells s) (trace s ++ [Msg "Sorry, incorrect input"])) Hwin).
Qed.

Lemma game_loop_invalid_input_witness :
  game_loop ["x"; "3"; "m"] false false "~" 20 (fresh fleet_board)
  = game_loop ["m"] false false "~" 20
      (mkStore (cells (fresh fleet_board))
         (trace (fresh fleet_board) ++ [Msg "Sorry, incorrect input"])) /\
  (forall out s',
     game_loop ["x"; "3"; "m"] false false "~" 20 (fresh fleet_board) = (out, s') ->
     exists evs,
       trace s' = trace (fresh fleet_board) ++ [Msg "Sorry, incorrect input"] ++ evs) /\
  game_loop ["x"; "3"] false false "~" 20 (fresh fleet_board)
  = (if get_turn (cells (fresh fleet_board)) ["@"; "X"] =? 20
     then Ok OutOfAmmo else Raise EOFError,
     mkStore (cells (fresh fleet_board))
       (trace (fresh fleet_board) ++ [Msg "Sorry, incorrect input"])).
Proof.
  apply (game_loop_invalid_input "x" "3" ["m"] false false "~" 20 (fresh fleet_board)).
  - reflexivity.
  - vm_compute. discriminate.
  - discriminate.
  - discriminate.
  - intros [H _]. vm_compute in H.
    repeat (destruct H as [H|H]; [discriminate H|]). exact H.
Defined.

(** The invalid answer of the witness, as the run it is. *)
Lemma invalid_answer_on_fleet :
  game_loop ["x"; "3"] false false "~" 20 (fresh fleet_board)
  = (Raise EOFError, mkStore fleet_board [Msg "Sorry, incorrect input"]).
Proof. vm_compute. reflexivity. Qed.

Lemma io_load_board_get_state (g : Board) filler :
  grid10 g -> (io_load_board (get_state g filler) "~").1 = Ok g.
Proof.
  intros Hg. unfold io_load_board.
  rewrite (set_state_result _ _ _ (grid10_generate "~")).
  rewrite (get_state_subscripts_ok g filler Hg). f_equal.
  destruct Hg as [Hl Hr].
  replace (generate_board 10 "~") with ([] ++ map (fun _ => repeat "~" 10) g).
  - unfold get_state. unfold enumerate at 2.
    apply (put_board_records g []); [simpl; lia|assumption].
  - do 11 (destruct g as [|? g]; try discriminate Hl). reflexivity.
Qed.

(** X13: in a running game on a 10 x 10 board, the answer ["m"], given
    for the row or (after any other row answer) for the column, ends the
    loop with the records of [get_state] saved and the board untouched;
    loading that save gives the board back. *)
Theorem game_loop_save_restores :
  forall (line_r : string) (rest : list string) (cheats radar : bool)
         (filler : string) (turns : Z) (s : Store),
    win_condition (cells s) ["X"; "@"; "~"] = false ->
    get_turn (cells s) ["@"; "X"] <> turns ->
    grid10 (cells s) ->
    game_loop ("m" :: rest) cheats radar filler turns s
    = (Ok (SavedToMenu (get_state (cells s) "~")), s) /\
    (line_r <> "m" ->
     game_loop (line_r :: "m" :: rest) cheats radar filler turns s
     = (Ok (SavedToMenu (get_state (cells s) "~")), s)) /\
    (io_load_board (get_state (cells s) "~") "~").1 = Ok (cells s).
Proof.
  intros line_r rest cheats radar filler turns s Hwin Hturn Hg.
  apply Z.eqb_neq in Hturn. split; [|split].
  - destruct rest; cbn [game_loop]; unfold bind, snapshot;
      rewrite Hwin, Hturn; reflexivity.
  - intros Hr. apply String.eqb_neq in Hr.
    cbn [game_loop]. unfold bind, snapshot. rewrite Hwin, Hturn.
    unfold io_validate_input. destruct (str_in line_r digits); rewrite Hr;
      reflexivity.
  - now apply io_load_board_get_state.
Qed.

Lemma game_loop_save_restores_witness :
  game_loop ("m" :: ["1"]) false false "~" 20 (fresh fleet_board)
  = (Ok (SavedToMenu (get_state (cells (fresh fleet_board)) "~")), fresh fleet_board) /\
  (io_load_board (get_state (cells (fresh fleet_board)) "~") "~").1
  = Ok (cells (fresh fleet_board)).
Proof.
  assert (Hg : grid10 (cells (fresh fleet_board))).
  { split; [reflexivity|]. repeat constructor. }
  assert (Ht : get_turn (cells (fresh fleet_board)) ["@"; "X"] <> 20).
  { vm_compute. discriminate. }
  destruct (game_loop_save_restores "0" ["1"] false false "~" 20 (fresh fleet_board)
              eq_refl Ht Hg) as (H1 & _ & H3).
  split; [exact H1|exact H3].
Defined.

(** ** Whole sessions *)

Lemma radar_hint_off r c s : radar_hint false r c s = (Ok tt, s).
Proof. reflexivity. Qed.

Lemma turn_radar_off filler line_r line_c s res s1 :
  grid10 (cells s) ->
  turn false filler line_r line_c s res s1 ->
  res = Ok tt /\ grid10 (cells s1).
Proof.
  intros Hg Hturn.
  destruct Hturn as [Hbad|r c Hr Hc _ _ Hnone|r c v Hr Hc _ _ _ _
                    |r c v b' res s1 Hr Hc _ _ Hv _ _ Hset Hhint].
  - split; [reflexivity|exact Hg].
  - destruct (board_get_grid10 _ r c Hg Hr Hc) as [v Hv]. congruence.
  - split; [reflexivity|exact Hg].
  - rewrite radar_hint_off in Hhint. injection Hhint as <- <-.
    split; [reflexivity|]. cbn [cells].
    apply grid10_shape. rewrite (board_set_shape _ _ _ _ _ Hset).
    now apply grid10_shape.
Qed.

(** X14: with the radar off, [game_loop] on a 10 x 10 board never fails
    on a subscript, a key or a conversion: no run raises [IndexError],
    [KeyError] or [ValueError], and the board is still 10 x 10. *)
Theorem game_loop_radar_off_safe :
  forall (inputs : list string) (cheats : bool) (filler : string) (turns : Z)
         (s s' : Store) (r : result ending),
    game_loop inputs cheats false filler turns s = (r, s') ->
    grid10 (cells s) ->
    grid10 (cells s') /\
    r <> Raise IndexError /\ r <> Raise KeyError /\ r <> Raise ValueError.
Proof.
  induction inputs as [|x|x y rest IH] using list_pair_ind;
    intros cheats filler turns s s' r H Hg.
  - apply game_loop_short in H as [-> H]; [|simpl; lia].
    split; [assumption|].
    destruct H as [->|[->|[->| ->]]]; repeat split; discriminate.
  - apply game_loop_short in H as [-> H]; [|simpl; lia].
    split; [assumption|].
    destruct H as [->|[->|[->| ->]]]; repeat split; discriminate.
  - apply game_loop_unfold in H
      as [(_ & -> & ->)|[(_ & _ & -> & ->)|[(_ & _ & _ & -> & ->)
         |(_ & _ & _ & _ & res & s1 & Hturn & H)]]];
      try (split; [assumption|repeat split; discriminate]).
    destruct (turn_radar_off _ _ _ _ _ _ Hg Hturn) as [-> Hg1].
    eapply IH; eassumption.
Qed.

Lemma game_loop_radar_off_safe_witness :
  grid10 (cells (fresh fleet_board)) /\
  grid10 (cells (game_loop (shots [(0, 9); (9, 9)]) false false "~" 20
                   (fresh fleet_board)).2) /\
  (game_loop (shots [(0, 9); (9, 9)]) false false "~" 20 (fresh fleet_board)).1
  <> Raise IndexError.
Proof.
  assert (Hg : grid10 (cells (fresh fleet_board))).
  { split; [reflexivity|]. repeat constructor. }
  split; [exact Hg|].
  destruct (game_loop_radar_off_safe (shots [(0, 9); (9, 9)]) false "~" 20
              (fresh fleet_board) _ _ (surjective_pairing _) Hg) as (Hg' & Hi & _).
  split; [exact Hg'|exact Hi].
Defined.

Lemma only_shots_refl b : only_shots b b.
Proof. split; [reflexivity|]. split; [auto|lia]. Qed.

Lemma only_shots_trans b1 b2 b3 :
  only_shots b1 b2 -> only_shots b2 b3 -> only_shots b1 b3.
Proof.
  intros (S1 & C1 & T1) (S2 & C2 & T2). split; [congruence|]. split; [|lia].
  intros i j v H Ha Hx. apply C1; [|assumption|assumption]. now apply C2.
Qed.

Lemma radar_hint_cells radar r c s res s1 :
  radar_hint radar r c s = (res, s1) -> cells s1 = cells s.
Proof. intros H. now apply quiet_radar_hint in H. Qed.

Lemma turn_only_shots radar filler line_r line_c s res s1 :
  turn radar filler line_r line_c s res s1 -> only_shots (cells s) (cells s1).
Proof.
  intros Hturn.
  destruct Hturn as [Hbad|r c Hr Hc _ _ Hnone|r c v Hr Hc _ _ _ _
                    |r c v b' res s1 Hr Hc _ _ Hv Ha Hx Hset Hhint];
    try apply only_shots_refl.
  apply radar_hint_cells in Hhint. rewrite Hhint. cbn [cells].
  set (mark := if String.eqb v filler then "@" else "X") in *.
  assert (Hmark : mark = "@" \/ mark = "X")
    by (subst mark; destruct (String.eqb v filler); auto).
  split; [|split].
  - eapply board_set_shape. eassumption.
  - destruct (board_set_cell _ _ _ _ _ _ Hv Hset) as (ri & ci & _ & Hnew).
    intros i j w Hw Hwa Hwx. rewrite Hnew in Hw.
    destruct (decide (i = ri /\ j = ci)); [|assumption].
    injection Hw as <-. tauto.
  - rewrite !get_turn_count.
    pose proof (count_cells_set (fun e => str_in e ["@"; "X"]) _ _ _ _ _ _ Hv Hset) as Hn.
    cbv beta in Hn.
    assert (Pv : str_in v ["@"; "X"] = false).
    { unfold str_in. cbn [existsb]. apply String.eqb_neq in Ha, Hx.
      now rewrite Ha, Hx. }
    assert (Pm : str_in mark ["@"; "X"] = true)
      by (destruct Hmark as [-> | ->]; reflexivity).
    rewrite Pv, Pm in Hn. cbn [Nat.b2n] in Hn. lia.
Qed.

(** X15: whatever the answers and however it ends, [game_loop] keeps the
    lengths of the rows, leaves behind no cell other than ["@"] and ["X"]
    that was not there before, and never lowers the turn number. *)
Theorem game_loop_only_shoots :
  forall (inputs : list string) (cheats radar : bool) (filler : string) (turns : Z)
         (s s' : Store) (r : result ending),
    game_loop inputs cheats radar filler turns s = (r, s') ->
    shape (cells s') = shape (cells s) /\
    (forall i j v, cell (cells s') i j = Some v -> v <> "@" -> v <> "X" ->
                   cell (cells s) i j = Some v) /\
    get_turn (cells s) ["@"; "X"] <= get_turn (cells s') ["@"; "X"].
Proof.
  intros inputs cheats radar filler turns s s' r H.
  change (only_shots (cells s) (cells s')).
  revert cheats filler turns s s' r H.
  induction inputs as [|x|x y rest IH] using list_pair_ind;
    intros cheats filler turns s s' r H.
  - apply game_loop_short in H as [-> _]; [|simpl; lia]. apply only_shots_refl.
  - apply game_loop_short in H as [-> _]; [|simpl; lia]. apply only_shots_refl.
  - apply game_loop_unfold in H
      as [(_ & _ & ->)|[(_ & _ & _ & ->)|[(_ & _ & _ & _ & ->)
         |(_ & _ & _ & _ & res & s1 & Hturn & H)]]];
      try apply only_shots_refl.
    apply turn_only_shots in Hturn.
    destruct res as [[]|e].
    + eapply only_shots_trans; [exact Hturn|]. eapply IH. exact H.
    + destruct H as [_ ->]. exact Hturn.
Qed.

Lemma game_loop_only_shoots_witness :
  cell (cells (game_loop (shots [(0, 0); (6, 0)]) false true "~" 20
                 (fresh fleet_board)).2) 1 0 = Some "A" /\
  cell fleet_board 1 0 = Some "A".
Proof.
  split; [reflexivity|].
  apply (proj1 (proj2 (game_loop_only_shoots (shots [(0, 0); (6, 0)]) false true "~" 20
                         (fresh fleet_board) _ _ (surjective_pairing _)))).
  - reflexivity.
  - discriminate.
  - discriminate.
Defined.

(** X16: [game_loop] tests [turn == turns]; on a board whose turn number
    is already above 20 that test never succeeds, and the session cannot
    end in [OutOfAmmo]. *)
Theorem game_loop_no_ammo_check_past_limit :
  forall (inputs : list string) (cheats radar : bool) (filler : string)
         (s s' : Store) (r : result ending),
    game_loop inputs cheats radar filler 20 s = (r, s') ->
    20 < get_turn (cells s) ["@"; "X"] ->
    r <> Ok OutOfAmmo.
Proof.
  induction inputs as [|x|x y rest IH] using list_pair_ind;
    intros cheats radar filler s s' r H Hover.
  - destruct (win_condition (cells s) ["X"; "@"; "~"]) eqn:Hwin;
      cbn [game_loop] in H; unfold bind, snapshot in H; rewrite Hwin in H.
    + injection H as <- _. discriminate.
    + replace (get_turn (cells s) ["@"; "X"] =? 20) with false in H by lia.
      injection H as <- _. discriminate.
  - destruct (win_condition (cells s) ["X"; "@"; "~"]) eqn:Hwin;
      cbn [game_loop] in H; unfold bind, snapshot in H; rewrite Hwin in H.
    + injection H as <- _. discriminate.
    + replace (get_turn (cells s) ["@"; "X"] =? 20) with false in H by lia.
      destruct (io_validate_input x digits) as [vr _r].
      destruct (String.eqb _r "m"); injection H as <- _; discriminate.
  - apply game_loop_unfold in H
      as [(_ & -> & _)|[(_ & Ht & _)|[(_ & _ & _ & -> & _)
         |(_ & _ & _ & _ & res & s1 & Hturn & H)]]];
      try discriminate; [lia|].
    apply turn_only_shots in Hturn as (_ & _ & Hmono).
    destruct res as [[]|e].
    + eapply IH; [exact H|lia].
    + destruct H as [-> _]. discriminate.
Qed.

Lemma game_loop_no_ammo_check_past_limit_witness :
  20 < get_turn (cells (fresh spent_board)) ["@"; "X"] /\
  (game_loop (shots [(8, 0); (8, 1)]) false false "~" 20 (fresh spent_board)).1
  <> Ok OutOfAmmo.
Proof.
  assert (H : 20 < get_turn (cells (fresh spent_board)) ["@"; "X"])
    by (vm_compute; reflexivity).
  split; [exact H|].
  exact (game_loop_no_ammo_check_past_limit (shots [(8, 0); (8, 1)]) false false "~"
           (fresh spent_board) _ _ (surjective_pairing _) H).
Defined.

Lemma radar_scan_raise r c ignore s e s1 :
  radar_scan r c ignore s = (Raise e, s1) -> e = IndexError.
Proof.
  unfold radar_scan.
  generalize (List.filter
                (fun t : Z * Z =>
                   (r + t.1 <? 10) && (c + t.1 >? -1) && (r + t.2 <? 10) && (c + t.2 >? -1))
                (product (range2 (-1) 2) (range2 (-1) 2))) as entries.
  intros entries. revert s.
  induction entries as [|t entries IH]; intros s H; [discriminate|].
  cbn [any_map] in H. unfold bind at 1 in H. unfold bind at 1 in H.
  unfold load at 1 in H.
  destruct (board_get (cells s) (r + t.1) (c + t.2)); [|now injection H as <-].
  unfold ret at 1 in H. destruct (negb _); [discriminate|].
  eapply IH. exact H.
Qed.

Lemma turn_raise radar filler line_r line_c s e s1 :
  turn radar filler line_r line_c s (Raise e) s1 -> e = IndexError.
Proof.
  intros Hturn. inversion Hturn as [| | |r c v b' res s2 _ _ _ _ _ _ _ _ Hhint];
    subst; [reflexivity|].
  unfold radar_hint in Hhint. destruct radar; [|discriminate].
  apply bind_inv in Hhint as [(near & s3 & _ & H)|(e' & H & [= ->])].
  - destruct near; discriminate.
  - eapply radar_scan_raise. exact H.
Qed.

(** X17: [game_loop] ends in [WinScreen] only on a board that satisfies
    [win_condition]; in [OutOfAmmo] only on a board that does not and
    whose turn number is 20 (or [turns], if that was at the first check);
    in [SavedToMenu] only on a board that is not won, with the records of
    that board; and it never raises [ValueError] or [KeyError]: [int] is
    only applied to answers that are digits. *)
Theorem game_loop_endings :
  forall (inputs : list string) (cheats radar : bool) (filler : string) (turns : Z)
         (s s' : Store) (r : result ending),
    game_loop inputs cheats radar filler turns s = (r, s') ->
    match r with
    | Ok WinScreen => win_condition (cells s') ["X"; "@"; "~"] = true
    | Ok OutOfAmmo =>
        win_condition (cells s') ["X"; "@"; "~"] = false /\
        (get_turn (cells s') ["@"; "X"] = 20 \/
         (s' = s /\ get_turn (cells s) ["@"; "X"] = turns))
    | Ok (SavedToMenu file) =>
        win_condition (cells s') ["X"; "@"; "~"] = false /\
        file = get_state (cells s') "~"
    | Raise e => e <> ValueError /\ e <> KeyError
    end.
Proof.
  induction inputs as [|x|x y rest IH] using list_pair_ind;
    intros cheats radar filler turns s s' r H.
  - cbn [game_loop] in H; unfold bind, snapshot in H.
    destruct (win_condition (cells s) _) eqn:Hwin; [now injection H as <- <-|].
    destruct (_ =? turns) eqn:Ht; injection H as <- <-;
      [|split; discriminate].
    apply Z.eqb_eq in Ht. auto.
  - cbn [game_loop] in H; unfold bind, snapshot in H.
    destruct (win_condition (cells s) _) eqn:Hwin; [now injection H as <- <-|].
    destruct (_ =? turns) eqn:Ht; [apply Z.eqb_eq in Ht; injection H as <- <-; auto|].
    destruct (io_validate_input x digits) as [vr _r].
    destruct (String.eqb _r "m"); injection H as <- <-;
      [auto|split; discriminate].
  - apply game_loop_unfold in H
      as [(Hwin & -> & ->)|[(Hwin & Ht & -> & ->)|[(Hwin & _ & _ & -> & ->)
         |(_ & _ & _ & _ & res & s1 & Hturn & H)]]]; auto.
    destruct res as [[]|e].
    + apply IH in H. destruct r as [[| |file]|e]; try exact H.
      destruct H as [Hwin [H|[-> H]]]; auto.
    + destruct H as [-> ->]. apply turn_raise in Hturn as ->.
      split; discriminate.
Qed.

Lemma game_loop_endings_witness :
  (game_loop (shots [(0, 0); (0, 1)]) false false "~" 20 (fresh patrol_board)).1
  = Ok WinScreen /\
  win_condition
    (cells (game_loop (shots [(0, 0); (0, 1)]) false false "~" 20
              (fresh patrol_board)).2) ["X"; "@"; "~"] = true.
Proof.
  assert (E : game_loop (shots [(0, 0); (0, 1)]) false false "~" 20 (fresh patrol_board)
              = (Ok WinScreen,
                 (game_loop (shots [(0, 0); (0, 1)]) false false "~" 20
                    (fresh patrol_board)).2)).
  { vm_compute. reflexivity. }
  split; [now rewrite E|].
  exact (game_loop_endings _ _ _ _ _ _ _ _ E).
Defined.

(** ** The radar, where it works *)

Lemma product_offsets :
  product (range2 (-1) 2) (range2 (-1) 2)
  = [(-1, -1); (-1, 0); (-1, 1); (0, -1); (0, 0); (0, 1); (1, -1); (1, 0); (1, 1)].
Proof. reflexivity. Qed.

Lemma any_map_load_trace (P : Z * Z -> Prop) r c ignore (xs : list (Z * Z)) :
  Forall P xs ->
  forall s res s',
    any_map (fun t : Z * Z =>
               v <~ load (r + t.1) (c + t.2); ret (negb (str_in v ignore))) xs s
    = (res, s') ->
    cells s' = cells s /\
    exists ts, trace s' = trace s ++ map (fun t => Rd (r + t.1) (c + t.2)) ts /\
               Forall P ts.
Proof.
  induction 1 as [|t xs Ht _ IH]; intros s res s' H.
  - injection H as _ <-. split; [reflexivity|].
    exists []. split; [now rewrite app_nil_r|constructor].
  - cbn [any_map] in H. unfold bind at 1 in H. unfold bind at 1 in H.
    unfold load at 1 in H.
    destruct (board_get (cells s) (r + t.1) (c + t.2)) as [v|].
    + unfold ret at 1 in H. destruct (negb (str_in v ignore)).
      * injection H as _ <-. split; [reflexivity|].
        exists [t]. split; [reflexivity|]. now constructor.
      * apply IH in H as (Hc & ts & Ht' & Hts). split; [exact Hc|].
        exists (t :: ts). split; [|now constructor].
        rewrite Ht'. cbn [trace map]. now rewrite <- app_assoc.
    + injection H as _ <-. split; [reflexivity|].
      exists [t]. split; [reflexivity|]. now constructor.
Qed.

(** X19: [radar_scan] never writes; the subscripts it evaluates are the
    target's plus offsets between -1 and 1; and the only exception it can
    raise is [IndexError]. *)
Theorem radar_scan_reads_around :
  forall (r c : Z) (ignore : list string) (s s' : Store) (res : result bool),
    radar_scan r c ignore s = (res, s') ->
    cells s' = cells s /\
    (forall e, res = Raise e -> e = IndexError) /\
    exists ts,
      trace s' = trace s ++ map (fun t => Rd (r + t.1) (c + t.2)) ts /\
      Forall (fun t : Z * Z => -1 <= t.1 <= 1 /\ -1 <= t.2 <= 1) ts.
Proof.
  intros r c ignore s s' res H.
  assert (Hraise : forall e, res = Raise e -> e = IndexError).
  { intros e ->. eapply radar_scan_raise. exact H. }
  unfold radar_scan in H.
  apply (any_map_load_trace (fun t : Z * Z => -1 <= t.1 <= 1 /\ -1 <= t.2 <= 1))
    in H as (Hc & ts & Ht & Hts).
  - split; [exact Hc|]. split; [exact Hraise|]. eauto.
  - apply List.Forall_forall. intros t Ht. apply filter_In in Ht as [Ht _].
    rewrite product_offsets in Ht. simpl in Ht.
    repeat (destruct Ht as [<-|Ht]; [simpl; lia|]). destruct Ht.
Qed.

Lemma radar_scan_reads_around_witness :
  exists ts,
    trace (radar_scan 0 9 ["@"; "X"; "~"] (fresh empty_board)).2
    = trace (fresh empty_board) ++ map (fun t => Rd (0 + t.1) (9 + t.2)) ts /\
    Forall (fun t : Z * Z => -1 <= t.1 <= 1 /\ -1 <= t.2 <= 1) ts.
Proof.
  exact (proj2 (proj2 (radar_scan_reads_around 0 9 ["@"; "X"; "~"] (fresh empty_board)
                         _ _ (surjective_pairing _)))).
Defined.

Lemma any_map_load_total r c ignore (xs : list (Z * Z)) :
  forall s,
    (forall t, In t xs -> exists v, board_get (cells s) (r + t.1) (c + t.2) = Some v) ->
    exists s',
      any_map (fun t : Z * Z =>
                 v <~ load (r + t.1) (c + t.2); ret (negb (str_in v ignore))) xs s
      = (Ok (existsb (fun t => match board_get (cells s) (r + t.1) (c + t.2) with
                               | Some v => negb (str_in v ignore)
                               | None => false
                               end) xs), s') /\
      cells s' = cells s.
Proof.
  induction xs as [|t xs IH]; intros s Hxs.
  - exists s. split; reflexivity.
  - destruct (Hxs t (or_introl eq_refl)) as [v Hv].
    cbn [any_map existsb]. unfold bind at 1. unfold bind at 1. unfold load at 1.
    rewrite Hv. unfold ret at 1.
    destruct (negb (str_in v ignore)).
    + eexists. split; reflexivity.
    + destruct (IH (mkStore (cells s) (trace s ++ [Rd (r + t.1) (c + t.2)])))
        as (s' & Hrun & Hc).
      { intros t' Ht'. cbn [cells]. apply Hxs. now right. }
      exists s'. split; [exact Hrun|exact Hc].
Qed.

(** X18: on a 10 x 10 board, for a target with row and column between 1
    and 8, [radar_scan] raises nothing, changes nothing and answers [True]
    exactly when one of the nine cells of the block around the target
    (the target itself included) holds a ship. *)
Theorem radar_scan_interior :
  forall (r c : Z) (s : Store),
    grid10 (cells s) -> 1 <= r <= 8 -> 1 <= c <= 8 ->
    exists near s',
      radar_scan r c ["@"; "X"; "~"] s = (Ok near, s') /\
      cells s' = cells s /\
      (near = true <->
       exists dr dc v,
         -1 <= dr <= 1 /\ -1 <= dc <= 1 /\
         board_get (cells s) (r + dr) (c + dc) = Some v /\ occupied v = true).
Proof.
  intros r c s Hg Hr Hc. unfold radar_scan. rewrite product_offsets.
  assert (Hall : List.filter
                   (fun t : Z * Z =>
                      (r + t.1 <? 10) && (c + t.1 >? -1) && (r + t.2 <? 10) && (c + t.2 >? -1))
                   [(-1, -1); (-1, 0); (-1, 1); (0, -1); (0, 0); (0, 1);
                    (1, -1); (1, 0); (1, 1)]
                 = [(-1, -1); (-1, 0); (-1, 1); (0, -1); (0, 0); (0, 1);
                    (1, -1); (1, 0); (1, 1)]).
  { cbn [List.filter fst snd].
    repeat match goal with
           | |- context [if ?b then _ else _] => replace b with true by lia
           end.
    reflexivity. }
  rewrite Hall.
  destruct (any_map_load_total r c ["@"; "X"; "~"]
              [(-1, -1); (-1, 0); (-1, 1); (0, -1); (0, 0); (0, 1);
               (1, -1); (1, 0); (1, 1)] s) as (s' & Hrun & Hcells).
  { intros t Ht. apply board_get_grid10; [assumption| |];
      simpl in Ht; repeat (destruct Ht as [<-|Ht]; [simpl; lia|]); destruct Ht. }
  eexists. exists s'. split; [exact Hrun|]. split; [exact Hcells|].
  rewrite existsb_exists. split.
  - intros ([dr dc] & Hin & H).
    destruct (board_get (cells s) (r + (dr, dc).1) (c + (dr, dc).2)) as [v|] eqn:Hv;
      [|discriminate].
    exists dr, dc, v. cbn [fst snd] in Hv.
    assert (-1 <= dr <= 1 /\ -1 <= dc <= 1) as [? ?].
    { simpl in Hin. repeat (destruct Hin as [[= <- <-]|Hin]; [lia|]). destruct Hin. }
    auto.
  - intros (dr & dc & v & Hdr & Hdc & Hv & Hocc).
    exists (dr, dc). cbn [fst snd]. rewrite Hv. split; [|exact Hocc].
    assert (Hcases : (dr = -1 \/ dr = 0 \/ dr = 1) /\ (dc = -1 \/ dc = 0 \/ dc = 1))
      by lia.
    destruct Hcases as [[-> |[-> | ->]] [-> |[-> | ->]]]; simpl; auto 10.
Qed.

Lemma radar_scan_interior_witness :
  grid10 (cells (fresh fleet_board)) /\
  exists near s',
    radar_scan 4 1 ["@"; "X"; "~"] (fresh fleet_board) = (Ok near, s') /\
    cells s' = cells (fresh fleet_board) /\
    (near = true <->
     exists dr dc v,
       -1 <= dr <= 1 /\ -1 <= dc <= 1 /\
       board_get (cells (fresh fleet_board)) (4 + dr) (1 + dc) = Some v /\
       occupied v = true).
Proof.
  assert (Hg : grid10 (cells (fresh fleet_board))).
  { split; [reflexivity|]. repeat constructor. }
  split; [exact Hg|].
  apply (radar_scan_interior 4 1 (fresh fleet_board) Hg); lia.
Defined.

(** ** A load that fails half way *)

(** X20: [set_state] is not atomic: on a 10 x 10 board, when a record has
    a subscript outside [-10, 10), the records in front of it have been
    written, the board is left that way, and [IndexError] is raised. *)
Theorem set_state_stops_at_first_bad_record :
  forall (before after : list Record3) (bad : Record3) (b : Board) (t : list event),
    grid10 b ->
    forallb subscripts_ok before = true -> subscripts_ok bad = false ->
    set_state (before ++ bad :: after) (mkStore b t)
    = (Raise IndexError,
       mkStore (foldl put b before)
         (t ++ map (fun r => Wr r.1.2 r.2 (marker r)) (before ++ [bad]))).
Proof.
  intros before after [[m r] c] b t Hg Hok Hbad. unfold set_state.
  unfold bind at 1.
  enough (Hloop :
    for_each (R := Empty_set) (before ++ (m, r, c) :: after)
      (fun '(ship, ri, ci) => store ri ci ship ;;; ret None) (mkStore b t)
    = (Raise IndexError,
       mkStore (foldl put b before)
         (t ++ map (fun r => Wr r.1.2 r.2 (marker r)) (before ++ [(m, r, c)]))))
    by now rewrite Hloop.
  revert b t Hg Hok.
  induction before as [|[[m0 r0] c0] before IH]; intros b t Hg Hok.
  - cbn [app for_each foldl map]. unfold bind at 1. unfold bind at 1.
    unfold store at 1. cbn [cells trace].
    rewrite (board_set_grid10 _ _ _ _ Hg), Hbad. reflexivity.
  - cbn [forallb] in Hok. apply andb_prop in Hok as [Hok0 Hok].
    cbn [app for_each foldl map]. unfold bind at 1. unfold bind at 1.
    unfold store at 1. cbn [cells trace].
    rewrite (board_set_grid10 _ _ _ _ Hg), Hok0. unfold ret at 1.
    rewrite (IH _ _ (grid10_put _ _ Hg) Hok). cbn [marker fst snd].
    now rewrite <- app_assoc.
Qed.

Lemma set_state_stops_at_first_bad_record_witness :
  grid10 empty_board /\
  set_state ([("A", 0, 0)] ++ ("B", 0, 10) :: [("S", 5, 5)]) (mkStore empty_board [])
  = (Raise IndexError,
     mkStore (foldl put empty_board [("A", 0, 0)])
       ([] ++ map (fun r => Wr r.1.2 r.2 (marker r)) ([("A", 0, 0)] ++ [("B", 0, 10)]))).
Proof.
  assert (Hg : grid10 empty_board).
  { split; [reflexivity|]. repeat constructor. }
  split; [exact Hg|].
  exact (set_state_stops_at_first_bad_record [("A", 0, 0)] [("S", 5, 5)] ("B", 0, 10)
           empty_board [] Hg eq_refl eq_refl).
Defined.
